(** * Unscented Kalman filter (src/ukf.cpp): shallow embedding and checked properties

    The filter works on C++ [double]s stored in Eigen vectors and matrices.
    The embedding idealises a finite [double] to a real number of the
    Standard Library ([R], with [sin], [cos], [sqrt], [atan] and [PI] for
    the libm calls and [M_PI]); rounding, overflow and the non-finite values
    are outside this model, except for the quotient by a zero divisor, which
    has no real value and is therefore made explicit ([safe_div],
    [checked_div]).  Statements over [R] therefore hold of the program up to
    floating-point rounding.  Where a statement turns on the rounding
    itself, the code is replayed on IEEE 754 binary64 numbers (module
    [Binary64] below).

    Eigen's [P.llt().matrixL()] and [S.inverse()] are library routines whose
    code is not part of ukf.cpp; they are parameters of the model. *)

From Stdlib Require Import PrimFloat.
From Stdlib Require Import Reals Lra Lia List ZArith Bool Arith.
From Equations Require Import Equations.
Import ListNotations.

Open Scope R_scope.

(** ** Eigen vectors and matrices

    [VectorXd] and [MatrixXd] are read and written by index ([x_(3)],
    [P_(r, c)]); they are modelled as index functions.  Only the indices
    below the declared sizes are meaningful (Eigen does not define reads
    outside them), so every property below is stated for those indices. *)

Definition Vec := nat -> R.
Definition Mat := nat -> nat -> R.

(** [v.fill(0)] and [M.fill(0.0)]. *)
Definition vzero : Vec := fun _ => 0.
Definition mzero : Mat := fun _ _ => 0.

Definition vadd (a b : Vec) : Vec := fun i => a i + b i.
Definition vsub (a b : Vec) : Vec := fun i => a i - b i.
Definition vscale (k : R) (a : Vec) : Vec := fun i => k * a i.

Definition madd (A B : Mat) : Mat := fun r c => A r c + B r c.
Definition msub (A B : Mat) : Mat := fun r c => A r c - B r c.
Definition mscale (k : R) (A : Mat) : Mat := fun r c => k * A r c.
Definition transpose (A : Mat) : Mat := fun r c => A c r.

(** [a * b.transpose()] for two column vectors. *)
Definition outer (a b : Vec) : Mat := fun r c => a r * b c.

(** [v(i) = a] and [M(r, c) = a]. *)
Definition vset (v : Vec) (i : nat) (a : R) : Vec :=
  fun k => if Nat.eqb k i then a else v k.
Definition mset (M : Mat) (r c : nat) (a : R) : Mat :=
  fun r' c' => if Nat.eqb r' r && Nat.eqb c' c then a else M r' c'.

(** [M.col(i)] as a value and as an assignment target. *)
Definition col (M : Mat) (i : nat) : Vec := fun r => M r i.
Definition set_col (M : Mat) (i : nat) (v : Vec) : Mat :=
  fun r c => if Nat.eqb c i then v r else M r c.

(** [dst.head(n) = src] and [dst.topLeftCorner(n, n) = src]. *)
Definition set_head (n : nat) (src dst : Vec) : Vec :=
  fun i => if Nat.ltb i n then src i else dst i.
Definition set_topLeftCorner (n : nat) (src dst : Mat) : Mat :=
  fun r c => if Nat.ltb r n && Nat.ltb c n then src r c else dst r c.

(** The comma initialiser [M << a, b, ...] given row by row. *)
Definition mat_of_rows (rows : list (list R)) : Mat :=
  fun r c => nth c (nth r rows []) 0.

(** Sum of [f 0 .. f (n-1)], the inner loop of a matrix product. *)
Fixpoint rsum (n : nat) (f : nat -> R) : R :=
  match n with
  | O => 0
  | S k => rsum k f + f k
  end.

(** [A * B] with inner dimension [n], and [A * v]. *)
Definition mmul (n : nat) (A B : Mat) : Mat :=
  fun r c => rsum n (fun k => A r k * B k c).
Definition mvmul (n : nat) (A : Mat) (v : Vec) : Vec :=
  fun r => rsum n (fun k => A r k * v k).

(** [for (int i = 0; i < n; ++i) body]: the body runs for 0, 1, ..., n-1 in
    this order on the threaded value. *)
Fixpoint for_loop {A : Type} (n : nat) (body : nat -> A -> A) (a : A) : A :=
  match n with
  | O => a
  | S k => body k (for_loop k body a)
  end.

(** The same loop when an iteration may leave the real numbers. *)
Fixpoint for_loop_opt {A : Type} (n : nat) (body : nat -> A -> option A)
    (a : A) : option A :=
  match n with
  | O => Some a
  | S k => match for_loop_opt k body a with
           | Some a' => body k a'
           | None => None
           end
  end.

(** ** Division

    A quotient of two doubles is a real number only when the divisor is not
    zero; [safe_div] therefore asks for the evidence.  Where the source
    divides under a guard the evidence comes from the guard; where it
    divides unguarded the model has to test the divisor ([checked_div]),
    and [None] stands for the non-finite value the double division
    produces. *)

Definition safe_div (a b : R) (nz : b <> 0) : R := a / b.

Definition checked_div (a b : R) : option R :=
  match Req_dec_T b 0 with
  | left _ => None
  | right nz => Some (safe_div a b nz)
  end.

(** ** Angle normalisation

    [while (a > M_PI) a -= 2.*M_PI;  while (a < -M_PI) a += 2.*M_PI;]
    Neither loop is structurally recursive; each is defined by
    well-founded recursion on the number of whole turns left. *)

Definition turns (a : R) : nat := Z.to_nat (up (a / (2 * PI))).

Lemma turns_decr (a : R) : a > PI -> (turns (a - 2 * PI) < turns a)%nat.
Proof.
  intros Ha. unfold turns.
  assert (Hpi := PI_RGT_0).
  replace ((a - 2 * PI) / (2 * PI)) with (a / (2 * PI) - 1) by (field; lra).
  set (q := a / (2 * PI)).
  assert (Hq : 1 / 2 < q).
  { unfold q. apply Rmult_lt_reg_r with (2 * PI); [lra|].
    replace (a / (2 * PI) * (2 * PI)) with a by (field; lra). lra. }
  destruct (archimed q) as [H1 H2].
  assert (Hup : up (q - 1) = (up q - 1)%Z).
  { symmetry. apply tech_up; rewrite minus_IZR; lra. }
  rewrite Hup.
  assert (0 < up q)%Z by (apply lt_IZR; lra).
  lia.
Qed.

Equations? while_above_pi (a : R) : R by wf (turns a) lt :=
  while_above_pi a with Rgt_dec a PI := {
    | left _ := while_above_pi (a - 2 * PI);
    | right _ := a }.
Proof. apply turns_decr; assumption. Qed.

Lemma turns_incr (a : R) : a < - PI -> (turns (- (a + 2 * PI)) < turns (- a))%nat.
Proof.
  intros Ha.
  replace (- (a + 2 * PI)) with (- a - 2 * PI) by ring.
  apply turns_decr. lra.
Qed.

Equations? while_below_minus_pi (a : R) : R by wf (turns (- a)) lt :=
  while_below_minus_pi a with Rlt_dec a (- PI) := {
    | left _ := while_below_minus_pi (a + 2 * PI);
    | right _ := a }.
Proof. apply turns_incr; assumption. Qed.

Definition normalize_angle (a : R) : R :=
  while_below_minus_pi (while_above_pi a).

(** The same two loops as a big-step relation on the loop variable: one
    constructor per way a [while] can proceed. *)
Inductive above_loop : R -> R -> Prop :=
| above_exit a : ~ a > PI -> above_loop a a
| above_iter a r : a > PI -> above_loop (a - 2 * PI) r -> above_loop a r.

Inductive below_loop : R -> R -> Prop :=
| below_exit a : ~ a < - PI -> below_loop a a
| below_iter a r : a < - PI -> below_loop (a + 2 * PI) r -> below_loop a r.

Definition angle_loops (a r : R) : Prop :=
  exists m, above_loop a m /\ below_loop m r.

(** [v(i)] normalised in place. *)
Definition normalize_at (i : nat) (v : Vec) : Vec :=
  vset v i (normalize_angle (v i)).

(** [atan2(y, x)] of libm, from the arc tangent of the Standard Library. *)
Definition atan2 (y x : R) : R :=
  if Rlt_dec 0 x then atan (y / x)
  else if Rlt_dec x 0 then
    (if Rle_dec 0 y then atan (y / x) + PI else atan (y / x) - PI)
  else if Rlt_dec 0 y then PI / 2
  else if Rlt_dec y 0 then - (PI / 2)
  else 0.

(** ** Measurements and filter state *)

(** Modelled from the spec: the declaration of [MeasurementPackage]
    (measurement_package.h) is not among the sources; section 6 of the spec
    gives its content: a sensor type tag, an integer timestamp and the raw
    measurement vector (2 components for the laser, 3 for the radar).
    Timestamps are integers of the machine ([long long] microseconds, as
    line 134 uses them); they are unbounded integers here. *)
Inductive SensorType : Type := LASER | RADAR.

Record MeasurementPackage : Type := {
  timestamp_ : Z;
  sensor_type_ : SensorType;
  raw_measurements_ : Vec
}.

Definition is_laser (t : SensorType) : bool :=
  match t with LASER => true | RADAR => false end.
Definition is_radar (t : SensorType) : bool :=
  match t with LASER => false | RADAR => true end.

(** The constants the constructor computes once (lines 58-75) and no later
    statement of ukf.cpp assigns. *)
Definition n_x_ : nat := 5.
Definition n_aug_ : nat := n_x_ + 2.
Definition lambda_ : R := 3 - INR n_aug_.
Definition n_sig : nat := 2 * n_aug_ + 1.

Definition weights_ : Vec :=
  for_loop (n_sig - 1)
    (fun k w => vset w (k + 1) (0.5 / (lambda_ + INR n_aug_)))
    (vset vzero 0 (lambda_ / (lambda_ + INR n_aug_))).

(** The members of class [UKF] that the methods read or write.  The class
    declaration (ukf.h) is not among the sources: the members are those
    ukf.cpp assigns and reads, with the types of their use. *)
Record UKF : Type := {
  is_initialized_ : bool;
  use_laser_ : bool;
  use_radar_ : bool;
  x_ : Vec;
  P_ : Mat;
  Xsig_pred_ : Mat;
  time_us_ : Z;
  std_a_ : R;
  std_yawdd_ : R;
  std_laspx_ : R;
  std_laspy_ : R;
  std_radr_ : R;
  std_radphi_ : R;
  std_radrd_ : R
}.

Definition set_is_initialized_ (b : bool) (s : UKF) : UKF :=
  Build_UKF b (use_laser_ s) (use_radar_ s) (x_ s) (P_ s) (Xsig_pred_ s)
    (time_us_ s) (std_a_ s) (std_yawdd_ s) (std_laspx_ s) (std_laspy_ s)
    (std_radr_ s) (std_radphi_ s) (std_radrd_ s).
Definition set_use_laser_ (b : bool) (s : UKF) : UKF :=
  Build_UKF (is_initialized_ s) b (use_radar_ s) (x_ s) (P_ s) (Xsig_pred_ s)
    (time_us_ s) (std_a_ s) (std_yawdd_ s) (std_laspx_ s) (std_laspy_ s)
    (std_radr_ s) (std_radphi_ s) (std_radrd_ s).
Definition set_use_radar_ (b : bool) (s : UKF) : UKF :=
  Build_UKF (is_initialized_ s) (use_laser_ s) b (x_ s) (P_ s) (Xsig_pred_ s)
    (time_us_ s) (std_a_ s) (std_yawdd_ s) (std_laspx_ s) (std_laspy_ s)
    (std_radr_ s) (std_radphi_ s) (std_radrd_ s).
Definition set_x_ (x : Vec) (s : UKF) : UKF :=
  Build_UKF (is_initialized_ s) (use_laser_ s) (use_radar_ s) x (P_ s)
    (Xsig_pred_ s) (time_us_ s) (std_a_ s) (std_yawdd_ s) (std_laspx_ s)
    (std_laspy_ s) (std_radr_ s) (std_radphi_ s) (std_radrd_ s).
Definition set_P_ (P : Mat) (s : UKF) : UKF :=
  Build_UKF (is_initialized_ s) (use_laser_ s) (use_radar_ s) (x_ s) P
    (Xsig_pred_ s) (time_us_ s) (std_a_ s) (std_yawdd_ s) (std_laspx_ s)
    (std_laspy_ s) (std_radr_ s) (std_radphi_ s) (std_radrd_ s).
Definition set_Xsig_pred_ (X : Mat) (s : UKF) : UKF :=
  Build_UKF (is_initialized_ s) (use_laser_ s) (use_radar_ s) (x_ s) (P_ s)
    X (time_us_ s) (std_a_ s) (std_yawdd_ s) (std_laspx_ s) (std_laspy_ s)
    (std_radr_ s) (std_radphi_ s) (std_radrd_ s).
Definition set_time_us_ (t : Z) (s : UKF) : UKF :=
  Build_UKF (is_initialized_ s) (use_laser_ s) (use_radar_ s) (x_ s) (P_ s)
    (Xsig_pred_ s) t (std_a_ s) (std_yawdd_ s) (std_laspx_ s) (std_laspy_ s)
    (std_radr_ s) (std_radphi_ s) (std_radrd_ s).

(** [UKF::UKF()].  [VectorXd(5)], [MatrixXd(5, 5)], [MatrixXd(n_x_, 15)]
    and [time_us_] are left unassigned by the constructor: their content is
    whatever the memory holds, which the arguments stand for.  The two
    sensor flags are assigned [true] here and are the only place where a
    sensor can be switched off (by editing the line, or by assigning the
    member), hence [set_use_laser_] and [set_use_radar_] above. *)
Definition UKF_new (x0 : Vec) (P0 Xsig0 : Mat) (t0 : Z) : UKF := {|
  use_laser_ := true;
  use_radar_ := true;
  x_ := x0;
  P_ := P0;
  std_a_ := 1;
  std_yawdd_ := 1;
  std_laspx_ := 0.15;
  std_laspy_ := 0.15;
  std_radr_ := 0.3;
  std_radphi_ := 0.03;
  std_radrd_ := 0.3;
  is_initialized_ := false;
  Xsig_pred_ := Xsig0;
  time_us_ := t0
|}.

(** ** Sigma points and the motion model (UKF::Prediction) *)

(** Lines 168-171: the augmented mean. *)
Definition augmented_mean (s : UKF) : Vec :=
  vset (vset (set_head n_x_ (x_ s) vzero) n_x_ 0) (n_x_ + 1) 0.

(** Lines 173-177: the augmented covariance. *)
Definition augmented_covariance (s : UKF) : Mat :=
  mset (mset (set_topLeftCorner n_x_ (P_ s) mzero)
          n_x_ n_x_ (std_a_ s * std_a_ s))
       (n_x_ + 1) (n_x_ + 1) (std_yawdd_ s * std_yawdd_ s).

(** Lines 182-188: the sigma points of mean [x_aug] and square root [L].
    The local [Xsig_aug] is declared without content and all its 15 columns
    are assigned; the loop starts here from the zero matrix. *)
Definition sigma_points (x_aug : Vec) (L : Mat) : Mat :=
  let sqrt_lambda_n_aug := sqrt (lambda_ + INR n_aug_) in
  for_loop n_aug_
    (fun i Xsig_aug =>
       set_col
         (set_col Xsig_aug (i + 1)
            (vadd x_aug (vscale sqrt_lambda_n_aug (col L i))))
         (i + 1 + n_aug_)
         (vsub x_aug (vscale sqrt_lambda_n_aug (col L i))))
    (set_col mzero 0 x_aug).

(** The guard of line 210 is the evidence that the divisor is not zero. *)
Lemma turn_rate_guard (yawd : R) : Rabs yawd > 0.001 -> yawd <> 0.
Proof.
  intros H E. rewrite E, Rabs_R0 in H. lra.
Qed.

(** Lines 197-235: one sigma point through the motion model, written into
    column [i] of the predicted sigma points. *)
Definition predict_sigma_point (delta_t : R) (Xsig_aug : Mat) (i : nat)
    (Xsig_pred : Mat) : Mat :=
  let p_x := Xsig_aug 0%nat i in
  let p_y := Xsig_aug 1%nat i in
  let v := Xsig_aug 2%nat i in
  let yaw := Xsig_aug 3%nat i in
  let yawd := Xsig_aug 4%nat i in
  let nu_a := Xsig_aug 5%nat i in
  let nu_yawdd := Xsig_aug 6%nat i in
  let '(px_p, py_p) :=
    match Rgt_dec (Rabs yawd) 0.001 with
    | left g =>
        (p_x + safe_div v yawd (turn_rate_guard yawd g)
               * (sin (yaw + yawd * delta_t) - sin yaw),
         p_y + safe_div v yawd (turn_rate_guard yawd g)
               * (cos yaw - cos (yaw + yawd * delta_t)))
    | right _ =>
        (p_x + v * delta_t * cos yaw,
         p_y + v * delta_t * sin yaw)
    end in
  let v_p := v in
  let yaw_p := yaw + yawd * delta_t in
  let yawd_p := yawd in
  let px_p := px_p + 0.5 * nu_a * delta_t * delta_t * cos yaw in
  let py_p := py_p + 0.5 * nu_a * delta_t * delta_t * sin yaw in
  let v_p := v_p + nu_a * delta_t in
  let yaw_p := yaw_p + 0.5 * nu_yawdd * delta_t * delta_t in
  let yawd_p := yawd_p + nu_yawdd * delta_t in
  mset (mset (mset (mset (mset Xsig_pred 0 i px_p) 1 i py_p) 2 i v_p)
          3 i yaw_p) 4 i yawd_p.

(** The recombination loops shared by the prediction and the corrections:
    [m = m + weights_(i) * Z.col(i)] and
    [C = C + weights_(i) * a_i * b_i.transpose()]. *)
Definition weighted_mean (Z : Mat) : Vec :=
  for_loop n_sig (fun i m => vadd m (vscale (weights_ i) (col Z i))) vzero.

Definition weighted_outer (a b : nat -> Vec) : Mat :=
  for_loop n_sig
    (fun i C => madd C (mscale (weights_ i) (outer (a i) (b i)))) mzero.

(** Lines 255-258, 323-326, 426-429: the state difference of sigma point
    [i], with its yaw component normalised. *)
Definition x_diff (Xsig_pred : Mat) (x : Vec) (i : nat) : Vec :=
  normalize_at 3 (vsub (col Xsig_pred i) x).

Section Filter.

(** [llt n A] is [A.llt().matrixL()] and [inverse n A] is [A.inverse()] for
    an n x n matrix [A]. *)
Variable llt : nat -> Mat -> Mat.
Variable inverse : nat -> Mat -> Mat.

Definition Prediction (s : UKF) (delta_t : R) : UKF :=
  let x_aug := augmented_mean s in
  let P_aug := augmented_covariance s in
  let L := llt n_aug_ P_aug in
  let Xsig_aug := sigma_points x_aug L in
  let Xsig_pred :=
    for_loop n_sig (predict_sigma_point delta_t Xsig_aug) (Xsig_pred_ s) in
  let x := weighted_mean Xsig_pred in
  let P := weighted_outer (x_diff Xsig_pred x) (x_diff Xsig_pred x) in
  set_P_ P (set_x_ x (set_Xsig_pred_ Xsig_pred s)).

(** *** UKF::UpdateLidar *)

(** Lines 279-286: the sigma points in measurement space. *)
Definition lidar_Zsig (s : UKF) : Mat :=
  for_loop n_sig
    (fun i Zsig =>
       mset (mset Zsig 0 i (Xsig_pred_ s 0%nat i)) 1 i (Xsig_pred_ s 1%nat i))
    mzero.

(** Lines 288-292. *)
Definition lidar_z_pred (s : UKF) : Vec := weighted_mean (lidar_Zsig s).

(** Lines 298 and 320: the residual of sigma point [i]. *)
Definition lidar_z_diff (s : UKF) (i : nat) : Vec :=
  vsub (col (lidar_Zsig s) i) (lidar_z_pred s).

(** Lines 304-306. *)
Definition lidar_R (s : UKF) : Mat :=
  mat_of_rows [[std_laspx_ s * std_laspx_ s; 0];
               [0; std_laspy_ s * std_laspy_ s]].

(** Lines 294-307. *)
Definition lidar_S (s : UKF) : Mat :=
  madd (weighted_outer (lidar_z_diff s) (lidar_z_diff s)) (lidar_R s).

(** Lines 313-329. *)
Definition lidar_Tc (s : UKF) : Mat :=
  weighted_outer (x_diff (Xsig_pred_ s) (x_ s)) (lidar_z_diff s).

(** Line 332. *)
Definition lidar_K (s : UKF) : Mat :=
  mmul 2 (lidar_Tc s) (inverse 2 (lidar_S s)).

(** Lines 334-339: the residual of the observation as it enters the state
    update, after the two loops on its component 1. *)
Definition lidar_innovation (s : UKF) (meas_package : MeasurementPackage)
    : Vec :=
  let z_diff := vsub (raw_measurements_ meas_package) (lidar_z_pred s) in
  normalize_at 1 z_diff.

(** Lines 345-347: the value printed after "NIS_lidar = ". *)
Definition nis_lidar (s : UKF) (meas_package : MeasurementPackage) : R :=
  let z_diff := lidar_innovation s meas_package in
  rsum 2 (fun k => z_diff k * mvmul 2 (inverse 2 (lidar_S s)) z_diff k).

(** Lines 341-343.  The statistic is printed, not stored: the state after
    the call is the updated mean and covariance. *)
Definition UpdateLidar (s : UKF) (meas_package : MeasurementPackage) : UKF :=
  let n_z := 2%nat in
  let S := lidar_S s in
  let K := lidar_K s in
  let z_diff := lidar_innovation s meas_package in
  let x := vadd (x_ s) (mvmul n_z K z_diff) in
  let P := msub (P_ s) (mmul n_z (mmul n_z K S) (transpose K)) in
  set_P_ P (set_x_ x s).

(** *** UKF::UpdateRadar *)

(** Lines 368-380: one predicted sigma point through the radar model.  The
    quotient of line 380 is taken without a test of the divisor. *)
Definition radar_measurement_model (Xsig_pred : Mat) (i : nat) (Zsig : Mat)
    : option Mat :=
  let p_x := Xsig_pred 0%nat i in
  let p_y := Xsig_pred 1%nat i in
  let v := Xsig_pred 2%nat i in
  let yaw := Xsig_pred 3%nat i in
  let v1 := cos yaw * v in
  let v2 := sin yaw * v in
  match checked_div (p_x * v1 + p_y * v2) (sqrt (p_x * p_x + p_y * p_y)) with
  | Some r_dot =>
      Some (mset (mset (mset Zsig 0 i (sqrt (p_x * p_x + p_y * p_y)))
                    1 i (atan2 p_y p_x))
              2 i r_dot)
  | None => None
  end.

(** Lines 365-381. *)
Definition radar_Zsig (s : UKF) : option Mat :=
  for_loop_opt n_sig (radar_measurement_model (Xsig_pred_ s)) mzero.

(** Lines 383-387. *)
Definition radar_z_pred (Zsig : Mat) : Vec := weighted_mean Zsig.

(** Lines 393-397 and 420-423: the residual of sigma point [i], bearing
    normalised. *)
Definition radar_z_diff (Zsig : Mat) (i : nat) : Vec :=
  normalize_at 1 (vsub (col Zsig i) (radar_z_pred Zsig)).

(** Lines 403-406. *)
Definition radar_R (s : UKF) : Mat :=
  mat_of_rows [[std_radr_ s * std_radr_ s; 0; 0];
               [0; std_radphi_ s * std_radphi_ s; 0];
               [0; 0; std_radrd_ s * std_radrd_ s]].

(** Lines 389-407. *)
Definition radar_S (s : UKF) (Zsig : Mat) : Mat :=
  madd (weighted_outer (radar_z_diff Zsig) (radar_z_diff Zsig)) (radar_R s).

(** Lines 413-432. *)
Definition radar_Tc (s : UKF) (Zsig : Mat) : Mat :=
  weighted_outer (x_diff (Xsig_pred_ s) (x_ s)) (radar_z_diff Zsig).

(** Line 435. *)
Definition radar_K (s : UKF) (Zsig : Mat) : Mat :=
  mmul 3 (radar_Tc s Zsig) (inverse 3 (radar_S s Zsig)).

(** Lines 437-442. *)
Definition radar_innovation (Zsig : Mat) (meas_package : MeasurementPackage)
    : Vec :=
  let z_diff := vsub (raw_measurements_ meas_package) (radar_z_pred Zsig) in
  normalize_at 1 z_diff.

(** Lines 448-450: the value printed after "NIS_radar = ". *)
Definition nis_radar (s : UKF) (Zsig : Mat)
    (meas_package : MeasurementPackage) : R :=
  let z_diff := radar_innovation Zsig meas_package in
  rsum 3 (fun k => z_diff k * mvmul 3 (inverse 3 (radar_S s Zsig)) z_diff k).

Definition UpdateRadar (s : UKF) (meas_package : MeasurementPackage)
    : option UKF :=
  let n_z := 3%nat in
  match radar_Zsig s with
  | Some Zsig =>
      let S := radar_S s Zsig in
      let K := radar_K s Zsig in
      let z_diff := radar_innovation Zsig meas_package in
      let x := vadd (x_ s) (mvmul n_z K z_diff) in
      let P := msub (P_ s) (mmul n_z (mmul n_z K S) (transpose K)) in
      Some (set_P_ P (set_x_ x s))
  | None => None
  end.

(** *** UKF::ProcessMeasurement *)

(** Lines 89-103. *)
Definition init_from_laser (meas_package : MeasurementPackage) (s : UKF)
    : UKF :=
  let s := set_use_radar_ false s in
  let s := set_x_ (vset (x_ s) 0 (raw_measurements_ meas_package 0%nat)) s in
  let s := set_x_ (vset (x_ s) 1 (raw_measurements_ meas_package 1%nat)) s in
  let s := set_x_ (vset (x_ s) 2 0.2) s in
  set_P_ (mat_of_rows [[0.01; 0; 0; 0; 0];
                       [0; 0.01; 0; 0; 0];
                       [0; 0; 1; 0; 0];
                       [0; 0; 0; 1; 0];
                       [0; 0; 0; 0; 1]]) s.

(** Lines 105-124. *)
Definition init_from_radar (meas_package : MeasurementPackage) (s : UKF)
    : UKF :=
  let rho := raw_measurements_ meas_package 0%nat in
  let phi := raw_measurements_ meas_package 1%nat in
  let rho_dot := raw_measurements_ meas_package 2%nat in
  let s := set_x_ (vset (x_ s) 0 (rho * cos phi)) s in
  let s := set_x_ (vset (x_ s) 1 (rho * sin phi)) s in
  let s := set_x_ (vset (x_ s) 2 rho_dot) s in
  let s := set_x_ (vset (x_ s) 3 phi) s in
  let s := set_x_ (vset (x_ s) 4 0) s in
  set_P_ (mat_of_rows [[0.01; 0; 0; 0; 0];
                       [0; 0.01; 0; 0; 0];
                       [0; 0; 0.01; 0; 0];
                       [0; 0; 0; 0.09; 0];
                       [0; 0; 0; 0; 0.09]]) s.

(** Lines 132-134: the elapsed time in seconds. *)
Definition elapsed (s : UKF) (meas_package : MeasurementPackage) : R :=
  IZR (timestamp_ meas_package - time_us_ s) / 1000000.

Definition ProcessMeasurement (s : UKF) (meas_package : MeasurementPackage)
    : option UKF :=
  if negb (is_initialized_ s) then
    let s := set_time_us_ (timestamp_ meas_package) s in
    let s := set_x_ vzero s in
    let s :=
      if is_laser (sensor_type_ meas_package) && eqb (use_laser_ s) true
      then init_from_laser meas_package s else s in
    let s :=
      if is_radar (sensor_type_ meas_package) && eqb (use_radar_ s) true
      then init_from_radar meas_package s else s in
    Some (set_is_initialized_ true s)
  else
    let dt := elapsed s meas_package in
    let s := Prediction s dt in
    let s :=
      if is_laser (sensor_type_ meas_package)
      then UpdateLidar s meas_package else s in
    match
      (if is_radar (sensor_type_ meas_package)
       then UpdateRadar s meas_package else Some s)
    with
    | Some s => Some (set_time_us_ (timestamp_ meas_package) s)
    | None => None
    end.

(** A sequence of observations handed over one at a time. *)
Fixpoint process_all (s : UKF) (ms : list MeasurementPackage) : option UKF :=
  match ms with
  | [] => Some s
  | m :: ms' =>
      match ProcessMeasurement s m with
      | Some s' => process_all s' ms'
      | None => None
      end
  end.

End Filter.

(** * Vocabulary of the statements *)

(** [L * L.transpose() = A] on the n x n block, and [L] lower triangular:
    what [A.llt().matrixL()] returns for a positive definite [A]. *)
Definition lower_triangular (n : nat) (L : Mat) : Prop :=
  forall r c, (r < c)%nat -> (c < n)%nat -> L r c = 0.

Definition square_root (n : nat) (L A : Mat) : Prop :=
  forall r c, (r < n)%nat -> (c < n)%nat ->
    mmul n L (transpose L) r c = A r c.

(** [A * B] is the identity on the n x n block. *)
Definition right_inverse (n : nat) (A B : Mat) : Prop :=
  forall r c, (r < n)%nat -> (c < n)%nat ->
    mmul n A B r c = (if Nat.eqb r c then 1 else 0).

Definition symmetric (n : nat) (A : Mat) : Prop :=
  forall r c, (r < n)%nat -> (c < n)%nat -> A r c = A c r.

(** [u.transpose() * A * u] and positive semi-definiteness. *)
Definition quadratic_form (n : nat) (A : Mat) (u : Vec) : R :=
  rsum n (fun r => rsum n (fun c => u r * A r c * u c)).

Definition positive_semidefinite (n : nat) (A : Mat) : Prop :=
  forall u : Vec, 0 <= quadratic_form n A u.

(** Deviation of sigma point [i] from the mean, without normalisation. *)
Definition deviation (X : Mat) (x : Vec) (i : nat) : Vec := vsub (col X i) x.

Definition diag (d : list R) : Mat :=
  fun r c => if Nat.eqb r c then nth r d 0 else 0.

Definition vec_of_list (l : list R) : Vec := fun i => nth i l 0.

Definition radar_observation (t : Z) (z : Vec) : MeasurementPackage :=
  {| timestamp_ := t; sensor_type_ := RADAR; raw_measurements_ := z |}.
Definition laser_observation (t : Z) (z : Vec) : MeasurementPackage :=
  {| timestamp_ := t; sensor_type_ := LASER; raw_measurements_ := z |}.

(** Entry [(r, i)] that iteration [i] of the motion-model loop writes. *)
Definition predicted_entry (delta_t : R) (Xsig_aug : Mat) (r i : nat) : R :=
  predict_sigma_point delta_t Xsig_aug i mzero r i.

(** The augmented sigma points the prediction starts from. *)
Definition Xsig_aug_of (llt : nat -> Mat -> Mat) (s : UKF) : Mat :=
  sigma_points (augmented_mean s) (llt n_aug_ (augmented_covariance s)).

(** What a call does once the filter is initialised (lines 132-148). *)
Definition predict_then_update (llt inverse : nat -> Mat -> Mat) (s : UKF)
    (m : MeasurementPackage) : option UKF :=
  let s1 := Prediction llt s (elapsed s m) in
  match sensor_type_ m with
  | LASER => Some (set_time_us_ (timestamp_ m) (UpdateLidar inverse s1 m))
  | RADAR =>
      match UpdateRadar inverse s1 m with
      | Some s2 => Some (set_time_us_ (timestamp_ m) s2)
      | None => None
      end
  end.

(** The range of a predicted sigma point and the numerator of its range
    rate (line 380). *)
Definition range_of (Xsig_pred : Mat) (i : nat) : R :=
  sqrt (Xsig_pred 0%nat i * Xsig_pred 0%nat i
        + Xsig_pred 1%nat i * Xsig_pred 1%nat i).

Definition range_rate_numerator (Xsig_pred : Mat) (i : nat) : R :=
  Xsig_pred 0%nat i * (cos (Xsig_pred 3%nat i) * Xsig_pred 2%nat i)
  + Xsig_pred 1%nat i * (sin (Xsig_pred 3%nat i) * Xsig_pred 2%nat i).

(** "The radar projection never divides by a range of at most [eps]". *)
Definition range_guarded (eps : R) : Prop :=
  forall (Xsig_pred : Mat) (i : nat) (Zsig : Mat),
    range_of Xsig_pred i <= eps ->
    radar_measurement_model Xsig_pred i Zsig <> None.

(** ** Concrete filters used as inputs *)

Definition spread : R := sqrt (lambda_ + INR n_aug_).

(** A filter moving at 3 m/s whose heading is uncertain by more than half a
    turn and correlated with position and speed: the covariance is
    [turning_L * turning_L.transpose()]. *)
Definition turning_L : Mat :=
  mat_of_rows
    [[1; 0; 0; 0; 0; 0; 0];
     [0; 1; 0; 0; 0; 0; 0];
     [0; 0; 1; 0; 0; 0; 0];
     [PI / spread; PI / spread; PI / spread; PI / spread; 0; 0; 0];
     [0; 0; 0; 0; 1 / 2000; 0; 0];
     [0; 0; 0; 0; 0; 1; 0];
     [0; 0; 0; 0; 0; 0; 1]].

Definition turning_state : UKF :=
  set_is_initialized_ true
    (set_P_ (mmul n_aug_ turning_L (transpose turning_L))
       (set_x_ (vec_of_list [0; 0; 3; 0; 0])
          (UKF_new vzero mzero mzero 0))).

Definition turning_px : list R :=
  [3; spread - 3; - 3; - (3 + spread); - 3; 3; 3 + spread / 2; 3;
   - spread - 3; - 3; - (3 - spread); - 3; 3; 3 - spread / 2; 3].

(** The filter of scenario B with the laser switched off, and the square
    root and inverse that belong to it. *)
Definition radar_initialised : UKF :=
  set_is_initialized_ true
    (init_from_radar (radar_observation 0 (vec_of_list [5; 0; 1]))
       (set_x_ vzero
          (set_time_us_ 0
             (set_use_laser_ false (UKF_new vzero mzero mzero 0))))).

Definition radar_L : Mat := diag [0.1; 0.1; 0.1; 0.3; 0.3; 1; 1].
Definition lidar_S_inverse : Mat := diag [400 / 13; 400 / 13].

Definition identity_matrix : Mat := diag [1; 1; 1; 1; 1; 1; 1].

(** The filter [radar_initialised] after a prediction over an elapsed time
    of 0, and the positions of its 15 predicted sigma points. *)
Definition radar_predicted : UKF :=
  Prediction (fun _ _ => radar_L) radar_initialised 0.

Definition radar_predicted_px : list R :=
  [5; 5 + spread * 0.1; 5; 5; 5; 5; 5; 5;
   5 - spread * 0.1; 5; 5; 5; 5; 5; 5].
Definition radar_predicted_py : list R :=
  [0; 0; spread * 0.1; 0; 0; 0; 0; 0;
   0; - (spread * 0.1); 0; 0; 0; 0; 0].

(** * Replay on binary64 numbers

    The embedding above computes over [R].  Where a statement turns on the
    arithmetic of the [double]s themselves, the code is replayed here on the
    kernel's IEEE 754 binary64 numbers, operation for operation and in the
    order of the source.  The replay covers what needs no libm function
    besides [sqrt]: the constructor's weights, the sigma points, the speed
    and heading rows of the motion model, the mean recombination and the
    angle-normalisation loops.  Decimal constants of the source that are not
    binary64 numbers are written as the double the compiler rounds them
    to. *)

Module Binary64.

Local Open Scope float_scope.

(** [M_PI] of <cmath>: the double nearest to pi, 3.141592653589793. *)
Definition M_PI : float := 0x1.921fb54442d18p+1.

(** The source's 0.01, 0.09 and 0.2 as doubles. *)
Definition d0_01 : float := 0x1.47ae147ae147bp-7.
Definition d0_09 : float := 0x1.70a3d70a3d70ap-4.
Definition d0_2 : float := 0x1.999999999999ap-3.

(** [while (a > M_PI) a -= 2.*M_PI;] and [while (a < -M_PI) a += 2.*M_PI;]
    (lines 257-258, 325-326, 338-339, 396-397, 422-423, 428-429, 441-442)
    run for at most [fuel] iterations: [None] when the loop has not exited
    by then. *)
Fixpoint while_above_pi (fuel : nat) (a : float) : option float :=
  if M_PI <? a then
    match fuel with
    | O => None
    | S n => while_above_pi n (a - 2 * M_PI)
    end
  else Some a.

Fixpoint while_below_minus_pi (fuel : nat) (a : float) : option float :=
  if a <? - M_PI then
    match fuel with
    | O => None
    | S n => while_below_minus_pi n (a + 2 * M_PI)
    end
  else Some a.

(** Constructor (lines 62-75); the [int] [n_aug_] is converted to [double]
    in [lambda_ + n_aug_]. *)
Definition n_aug_ : float := 7.
Definition lambda_ : float := 3 - n_aug_.
Definition weights_ : list float :=
  lambda_ / (lambda_ + n_aug_) :: repeat (0.5 / (lambda_ + n_aug_)) 14.

(** Row [r] of [P_aug.llt().matrixL()] for a diagonal [P_aug]: the
    factorisation takes the square root of the diagonal entry and leaves
    zeros elsewhere. *)
Definition llt_diagonal_row (d : list float) (r : nat) : list float :=
  map (fun kd => if Nat.eqb r (fst kd) then PrimFloat.sqrt (snd kd) else 0)
      (combine (seq 0 (length d)) d).

(** Row [r] of [Xsig_aug] (lines 183-188) from [x_aug(r)] and row [r] of
    [L]. *)
Definition sigma_row (x : float) (L_row : list float) : list float :=
  let sqrt_lambda_n_aug := PrimFloat.sqrt (lambda_ + n_aug_) in
  x :: map (fun l => x + sqrt_lambda_n_aug * l) L_row
    ++ map (fun l => x - sqrt_lambda_n_aug * l) L_row.

(** A filter with a diagonal covariance: the mean and the diagonal of [P_]. *)
Record UKF := { x_ : list float; P_ : list float;
                std_a_ : float; std_yawdd_ : float }.

Definition Xsig_aug_row (s : UKF) (r : nat) : list float :=
  let x_aug := x_ s ++ [0; 0] in
  let P_aug := P_ s ++ [std_a_ s * std_a_ s; std_yawdd_ s * std_yawdd_ s] in
  sigma_row (nth r x_aug 0) (llt_diagonal_row P_aug r).

(** Lines 218-227: [v_p] and [yaw_p] of one sigma point. *)
Definition v_p (delta_t v nu_a : float) : float := v + nu_a * delta_t.
Definition yaw_p (delta_t yaw yawd nu_yawdd : float) : float :=
  yaw + yawd * delta_t + 0.5 * nu_yawdd * delta_t * delta_t.

(** Rows 2 and 3 of [Xsig_pred_] after the motion-model loop. *)
Definition Xsig_pred_row2 (s : UKF) (delta_t : float) : list float :=
  map (fun p => v_p delta_t (fst p) (snd p))
      (combine (Xsig_aug_row s 2) (Xsig_aug_row s 5)).

Definition Xsig_pred_row3 (s : UKF) (delta_t : float) : list float :=
  map (fun p => yaw_p delta_t (fst (fst p)) (snd (fst p)) (snd p))
      (combine (combine (Xsig_aug_row s 3) (Xsig_aug_row s 4))
               (Xsig_aug_row s 6)).

(** Lines 246-249, one component: [x_.fill(0.0)] and then
    [x_ = x_ + weights_(i) * Xsig_pred_.col(i)] for i = 0..14. *)
Definition weighted_mean (row : list float) : float :=
  fold_left (fun x wp => x + fst wp * snd wp) (combine weights_ row) 0.

(** Mean speed and mean heading after [Prediction(delta_t)], and the
    heading deviation [x_diff(3)] of sigma point [i] on entry to the loops
    of lines 257-258. *)
Definition Prediction_x2 (s : UKF) (delta_t : float) : float :=
  weighted_mean (Xsig_pred_row2 s delta_t).
Definition Prediction_x3 (s : UKF) (delta_t : float) : float :=
  weighted_mean (Xsig_pred_row3 s delta_t).
Definition x_diff3 (s : UKF) (delta_t : float) (i : nat) : float :=
  nth i (Xsig_pred_row3 s delta_t) 0 - Prediction_x3 s delta_t.

(** The filter after a first LASER observation [(px, py)] (lines 91-101)
    and after a first RADAR observation with bearing 0, where
    [cos(0) = 1] and [sin(0) = 0] (lines 105-122). *)
Definition init_from_laser (px py : float) : UKF :=
  {| x_ := [px; py; d0_2; 0; 0]; P_ := [d0_01; d0_01; 1; 1; 1];
     std_a_ := 1; std_yawdd_ := 1 |}.
Definition init_from_radar_ahead (rho rho_dot : float) : UKF :=
  {| x_ := [rho * 1; rho * 0; rho_dot; 0; 0];
     P_ := [d0_01; d0_01; d0_01; d0_09; d0_09];
     std_a_ := 1; std_yawdd_ := 1 |}.

(** [dt] of line 134 for a gap of [us] microseconds. *)
Definition elapsed (us : float) : float := us / 1000000.

End Binary64.

(** * Properties *)

(** ** Angle normalisation *)

Lemma while_above_pi_run (a : R) : above_loop a (while_above_pi a).
Proof.
  funelim (while_above_pi a).
  - apply above_iter; assumption.
  - apply above_exit; assumption.
Qed.

Lemma while_below_minus_pi_run (a : R) :
  below_loop a (while_below_minus_pi a).
Proof.
  funelim (while_below_minus_pi a).
  - apply below_iter; assumption.
  - apply below_exit; assumption.
Qed.

Lemma above_loop_range (a r : R) :
  above_loop a r -> r <= PI /\ (a <= PI -> r = a) /\ (PI < a -> - PI < r).
Proof.
  induction 1 as [a Hn | a r Hgt Hrun IH].
  - split; [|split]; lra.
  - destruct IH as (Hle & Hsame & Hlow).
    split; [|split]; try lra.
    all: intros _; destruct (Rle_dec (a - 2 * PI) PI) as [Hs | Hs];
      [rewrite (Hsame Hs); lra | apply Hlow; lra].
Qed.

Lemma below_loop_range (a r : R) :
  below_loop a r -> - PI <= r /\ (- PI <= a -> r = a) /\ (a < - PI -> r < PI).
Proof.
  induction 1 as [a Hn | a r Hlt Hrun IH].
  - split; [|split]; lra.
  - destruct IH as (Hge & Hsame & Hup).
    split; [|split]; try lra.
    all: intros _; destruct (Rle_dec (- PI) (a + 2 * PI)) as [Hs | Hs];
      [rewrite (Hsame Hs); lra | apply Hup; lra].
Qed.

Lemma above_loop_deterministic (a r1 r2 : R) :
  above_loop a r1 -> above_loop a r2 -> r1 = r2.
Proof.
  intros H1. revert r2.
  induction H1 as [a Hn | a r Hgt Hrun IH]; intros r2 H2; inversion H2; subst;
    try reflexivity; try contradiction.
  apply IH; assumption.
Qed.

Lemma below_loop_deterministic (a r1 r2 : R) :
  below_loop a r1 -> below_loop a r2 -> r1 = r2.
Proof.
  intros H1. revert r2.
  induction H1 as [a Hn | a r Hlt Hrun IH]; intros r2 H2; inversion H2; subst;
    try reflexivity; try contradiction.
  apply IH; assumption.
Qed.

Lemma normalize_angle_range (a : R) :
  - PI <= normalize_angle a <= PI.
Proof.
  unfold normalize_angle.
  pose proof (above_loop_range _ _ (while_above_pi_run a)) as (Hle & _ & _).
  pose proof (below_loop_range _ _
                (while_below_minus_pi_run (while_above_pi a)))
    as (Hge & Hsame & Hup).
  split; [exact Hge|].
  destruct (Rle_dec (- PI) (while_above_pi a)) as [Hs | Hs].
  - rewrite (Hsame Hs). exact Hle.
  - apply Rlt_le, Hup. lra.
Qed.

Lemma normalize_angle_id (a : R) :
  - PI <= a <= PI -> normalize_angle a = a.
Proof.
  intros [Hlo Hhi]. unfold normalize_angle.
  pose proof (above_loop_range _ _ (while_above_pi_run a)) as (_ & Hsame & _).
  rewrite (Hsame Hhi).
  pose proof (below_loop_range _ _ (while_below_minus_pi_run a))
    as (_ & Hsame' & _).
  exact (Hsame' Hlo).
Qed.

Lemma normalize_angle_one_turn_down (a : R) :
  PI < a <= 3 * PI -> normalize_angle a = a - 2 * PI.
Proof.
  intros [Hlo Hhi]. unfold normalize_angle.
  assert (Ha : while_above_pi a = a - 2 * PI).
  { apply (above_loop_deterministic a); [apply while_above_pi_run|].
    apply above_iter; [lra|]. apply above_exit. lra. }
  rewrite Ha.
  apply (below_loop_deterministic (a - 2 * PI));
    [apply while_below_minus_pi_run|].
  apply below_exit. lra.
Qed.

Lemma normalize_angle_one_turn_up (a : R) :
  - (3 * PI) <= a < - PI -> normalize_angle a = a + 2 * PI.
Proof.
  intros [Hlo Hhi]. pose proof PI_RGT_0 as Hpi. unfold normalize_angle.
  assert (Ha : while_above_pi a = a).
  { apply (above_loop_deterministic a); [apply while_above_pi_run|].
    apply above_exit. lra. }
  rewrite Ha.
  apply (below_loop_deterministic a); [apply while_below_minus_pi_run|].
  apply below_iter; [lra|]. apply below_exit. lra.
Qed.

(** Over the real numbers, where every subtraction and addition of 2 PI is
    exact, the two loops have a run from every input to a unique result,
    the total function [normalize_angle] computes it, and it lies in the
    closed interval from -PI to PI. *)
Lemma normalize_angle_exact_arithmetic (a : R) :
  exists r : R,
    angle_loops a r
    /\ (forall r' : R, angle_loops a r' -> r' = r)
    /\ normalize_angle a = r
    /\ - PI <= r <= PI.
Proof.
  exists (normalize_angle a). split; [|split; [|split]].
  - exists (while_above_pi a). split.
    + apply while_above_pi_run.
    + apply while_below_minus_pi_run.
  - intros r' (m & Hm & Hr').
    rewrite (above_loop_deterministic _ _ _ Hm (while_above_pi_run a)) in Hr'.
    exact (below_loop_deterministic _ _ _ Hr'
             (while_below_minus_pi_run (while_above_pi a))).
  - reflexivity.
  - apply normalize_angle_range.
Qed.

(** *** The loops on binary64 numbers *)

(** A double above [M_PI] from which the subtraction of [2.*M_PI] returns
    the same double is never left by the first loop; likewise for the
    second loop. *)
Lemma while_above_pi_absorbed (a : float) :
  PrimFloat.ltb Binary64.M_PI a = true ->
  PrimFloat.sub a (PrimFloat.mul 2 Binary64.M_PI) = a ->
  forall fuel, Binary64.while_above_pi fuel a = None.
Proof.
  intros Hgt Hsame fuel. induction fuel as [|n IH].
  - cbn [Binary64.while_above_pi]. rewrite Hgt. reflexivity.
  - cbn [Binary64.while_above_pi]. rewrite Hgt, Hsame. exact IH.
Qed.

Lemma while_below_minus_pi_absorbed (a : float) :
  PrimFloat.ltb a (PrimFloat.opp Binary64.M_PI) = true ->
  PrimFloat.add a (PrimFloat.mul 2 Binary64.M_PI) = a ->
  forall fuel, Binary64.while_below_minus_pi fuel a = None.
Proof.
  intros Hlt Hsame fuel. induction fuel as [|n IH].
  - cbn [Binary64.while_below_minus_pi]. rewrite Hlt. reflexivity.
  - cbn [Binary64.while_below_minus_pi]. rewrite Hlt, Hsame. exact IH.
Qed.

(** C10. On doubles the loops do not terminate for every finite input.  A
    filter initialised by a LASER observation [(px, py)] and handed an
    observation 10^15 microseconds later runs [Prediction(1e9)]; the heading
    deviation [x_diff(3)] of sigma point 7 is then
    0.5 * sqrt(3) * 1e9 * 1e9, about 8.66e17, and the loop of line 257 has
    not exited after any number of iterations, because subtracting
    [2.*M_PI] from that double returns the same double.  The same holds at
    1e17, and for the loop of line 258 at -1e17. *)
Theorem angle_normalisation_never_exits (px py : float) (fuel : nat) :
  Binary64.x_diff3 (Binary64.init_from_laser px py)
    (Binary64.elapsed 1e15) 7
  = (0.5 * PrimFloat.sqrt 3 * 1e9 * 1e9)%float
  /\ Binary64.while_above_pi fuel
       (Binary64.x_diff3 (Binary64.init_from_laser px py)
          (Binary64.elapsed 1e15) 7) = None
  /\ Binary64.while_above_pi fuel 1e17 = None
  /\ Binary64.while_below_minus_pi fuel (-1e17) = None.
Proof.
  assert (E : Binary64.x_diff3 (Binary64.init_from_laser px py)
                (Binary64.elapsed 1e15) 7
              = (0.5 * PrimFloat.sqrt 3 * 1e9 * 1e9)%float).
  { vm_compute. reflexivity. }
  split; [exact E|]. rewrite E.
  split; [|split].
  - apply while_above_pi_absorbed; reflexivity.
  - apply while_above_pi_absorbed; reflexivity.
  - apply while_below_minus_pi_absorbed; reflexivity.
Qed.


(** ** Weights and recombination loops *)

Lemma lambda_n_aug : lambda_ + INR n_aug_ = 3.
Proof. unfold lambda_, n_aug_, n_x_. simpl. lra. Qed.

Ltac unroll :=
  cbv [weighted_mean weighted_outer sigma_points for_loop n_sig n_aug_ n_x_
       vset vzero mzero vadd vsub vscale madd msub mscale outer col set_col
       set_head set_topLeftCorner mset
       Nat.eqb Nat.ltb Nat.leb Nat.add Nat.mul Nat.sub andb].

(** Evaluation of closed entries down to the real operations. *)
Ltac reals :=
  cbv - [Rplus Rmult Rminus Ropp Rinv Rdiv IZR Rle Rlt Rge Rgt
         PI sqrt cos sin].

Lemma weights_center : weights_ 0%nat = - 4 / 3.
Proof.
  unfold weights_. unroll. unfold lambda_, n_aug_, n_x_. simpl. lra.
Qed.

Lemma weights_other (i : nat) : (1 <= i < 15)%nat -> weights_ i = 1 / 6.
Proof.
  intros [H1 H2].
  do 15 (destruct i as [|i];
         [try lia; unfold weights_; unroll;
          unfold lambda_, n_aug_, n_x_; simpl; lra|]).
  lia.
Qed.

Ltac weights :=
  rewrite ?weights_center;
  repeat match goal with
         | |- context [weights_ (S ?k)] =>
             rewrite (weights_other (S k)) by lia
         end.

Lemma weights_sum : rsum n_sig weights_ = 1.
Proof.
  cbv [rsum n_sig n_aug_ n_x_ Nat.add Nat.mul]. weights. lra.
Qed.

Lemma spread_sq : spread * spread = 3.
Proof. unfold spread. rewrite lambda_n_aug. apply sqrt_sqrt. lra. Qed.

Lemma spread_pos : 0 < spread.
Proof. unfold spread. rewrite lambda_n_aug. apply sqrt_lt_R0. lra. Qed.

Lemma spread_le_2 : spread <= 2.
Proof. pose proof spread_pos. pose proof spread_sq. nra. Qed.

Lemma rsum_ext (n : nat) (f g : nat -> R) :
  (forall i, (i < n)%nat -> f i = g i) -> rsum n f = rsum n g.
Proof.
  induction n as [|n IH]; intros H; simpl.
  - reflexivity.
  - rewrite IH by (intros i Hi; apply H; lia).
    rewrite (H n) by lia. reflexivity.
Qed.

Lemma rsum_nonneg (n : nat) (f : nat -> R) :
  (forall i, (i < n)%nat -> 0 <= f i) -> 0 <= rsum n f.
Proof.
  induction n as [|n IH]; intros H; simpl.
  - lra.
  - assert (0 <= rsum n f) by (apply IH; intros; apply H; lia).
    assert (0 <= f n) by (apply H; lia). lra.
Qed.

Lemma weighted_mean_sum (Z : Mat) (r : nat) :
  weighted_mean Z r = rsum n_sig (fun i => weights_ i * Z r i).
Proof.
  unfold weighted_mean. generalize n_sig as n.
  induction n as [|n IH]; simpl.
  - reflexivity.
  - unfold vadd at 1. rewrite IH. reflexivity.
Qed.

Lemma weighted_outer_sum (a b : nat -> Vec) (r c : nat) :
  weighted_outer a b r c = rsum n_sig (fun i => weights_ i * (a i r * b i c)).
Proof.
  unfold weighted_outer. generalize n_sig as n.
  induction n as [|n IH]; simpl.
  - reflexivity.
  - unfold madd at 1. rewrite IH. reflexivity.
Qed.

Lemma weighted_mean_ext (Z Z' : Mat) (r : nat) :
  (forall i, (i < n_sig)%nat -> Z r i = Z' r i) ->
  weighted_mean Z r = weighted_mean Z' r.
Proof.
  intros H. rewrite !weighted_mean_sum. apply rsum_ext.
  intros i Hi. rewrite (H i Hi). reflexivity.
Qed.

Lemma weighted_outer_ext (a b a' b' : nat -> Vec) (r c : nat) :
  (forall i, (i < n_sig)%nat -> a i r = a' i r) ->
  (forall i, (i < n_sig)%nat -> b i c = b' i c) ->
  weighted_outer a b r c = weighted_outer a' b' r c.
Proof.
  intros Ha Hb. rewrite !weighted_outer_sum. apply rsum_ext.
  intros i Hi. rewrite (Ha i Hi), (Hb i Hi). reflexivity.
Qed.

Lemma weighted_outer_symmetric (a : nat -> Vec) (r c : nat) :
  weighted_outer a a r c = weighted_outer a a c r.
Proof.
  rewrite !weighted_outer_sum. apply rsum_ext. intros i _. ring.
Qed.

(** ** Sigma point generation *)

Lemma sigma_points_mean (x_aug : Vec) (L : Mat) (r : nat) :
  weighted_mean (sigma_points x_aug L) r = x_aug r.
Proof.
  unfold sigma_points. set (q := sqrt _).
  unroll. weights. field.
Qed.

Lemma sigma_points_covariance (x_aug : Vec) (L : Mat) (r c : nat) :
  weighted_outer (deviation (sigma_points x_aug L) x_aug)
                 (deviation (sigma_points x_aug L) x_aug) r c
  = mmul n_aug_ L (transpose L) r c.
Proof.
  unfold deviation, sigma_points.
  pose proof spread_sq as Hq. unfold spread in Hq. revert Hq.
  set (q := sqrt _). intros Hq.
  unroll. weights. cbv [mmul rsum transpose].
  match goal with
  | |- _ = ?rhs =>
      transitivity (q * q / 3 * rhs); [field | rewrite Hq; field]
  end.
Qed.

Lemma sigma_points_columns (x_aug : Vec) (L : Mat) (r : nat) :
  sigma_points x_aug L r 0%nat = x_aug r
  /\ forall i, (i < n_aug_)%nat ->
       sigma_points x_aug L r (i + 1)%nat
       = x_aug r + sqrt (lambda_ + INR n_aug_) * L r i
       /\ sigma_points x_aug L r (i + 1 + n_aug_)%nat
          = x_aug r - sqrt (lambda_ + INR n_aug_) * L r i.
Proof.
  split.
  - reflexivity.
  - intros i Hi. unfold n_aug_, n_x_ in Hi.
    do 7 (destruct i as [|i]; [split; reflexivity|]).
    lia.
Qed.

(** C5. For every augmented mean and every lower-triangular [L] whose
    product with its transpose is the augmented covariance: the 15 sigma
    points are the mean (point 0) and the mean plus and minus
    sqrt(lambda+7) times column i of [L] (points i+1 and i+8, with i from 0
    to 6 as the code counts the columns), the weights are lambda/(lambda+7)
    for the centre and 0.5/(lambda+7) for the others with lambda = 3 - 7,
    they sum to 1, the weighted mean of the points is the augmented mean,
    and the weighted covariance of their deviations is the augmented
    covariance. *)
Theorem sigma_points_recover_moments (x_aug : Vec) (L P_aug : Mat) :
  lower_triangular n_aug_ L ->
  square_root n_aug_ L P_aug ->
  (forall r, sigma_points x_aug L r 0%nat = x_aug r
     /\ forall i, (i < n_aug_)%nat ->
          sigma_points x_aug L r (i + 1)%nat
          = x_aug r + sqrt (lambda_ + 7) * L r i
          /\ sigma_points x_aug L r (i + 1 + 7)%nat
             = x_aug r - sqrt (lambda_ + 7) * L r i)
  /\ lambda_ = 3 - 7
  /\ weights_ 0%nat = lambda_ / (lambda_ + 7)
  /\ (forall i, (1 <= i < n_sig)%nat -> weights_ i = 0.5 / (lambda_ + 7))
  /\ rsum n_sig weights_ = 1
  /\ (forall r, (r < n_aug_)%nat ->
        weighted_mean (sigma_points x_aug L) r = x_aug r)
  /\ (forall r c, (r < n_aug_)%nat -> (c < n_aug_)%nat ->
        weighted_outer (deviation (sigma_points x_aug L) x_aug)
                       (deviation (sigma_points x_aug L) x_aug) r c
        = P_aug r c).
Proof.
  intros _ Hroot.
  assert (H7 : INR n_aug_ = 7) by (unfold n_aug_, n_x_; simpl; lra).
  assert (Hl : lambda_ = 3 - 7) by (unfold lambda_; rewrite H7; reflexivity).
  split; [|split; [|split; [|split; [|split; [|split]]]]].
  - intros r. rewrite <- H7. apply sigma_points_columns.
  - exact Hl.
  - rewrite weights_center, Hl. lra.
  - intros i Hi. rewrite weights_other by exact Hi. rewrite Hl. lra.
  - apply weights_sum.
  - intros r _. apply sigma_points_mean.
  - intros r c Hr Hc. rewrite sigma_points_covariance.
    apply Hroot; assumption.
Qed.

Lemma sigma_points_recover_moments_witness :
  lower_triangular n_aug_ identity_matrix
  /\ square_root n_aug_ identity_matrix identity_matrix
  /\ rsum n_sig weights_ = 1
  /\ (forall r, (r < n_aug_)%nat ->
        weighted_mean (sigma_points (vec_of_list [1; 2; 3; 4; 5; 0; 0])
                         identity_matrix) r
        = vec_of_list [1; 2; 3; 4; 5; 0; 0] r)
  /\ (forall r c, (r < n_aug_)%nat -> (c < n_aug_)%nat ->
        weighted_outer
          (deviation (sigma_points (vec_of_list [1; 2; 3; 4; 5; 0; 0])
                        identity_matrix)
             (vec_of_list [1; 2; 3; 4; 5; 0; 0]))
          (deviation (sigma_points (vec_of_list [1; 2; 3; 4; 5; 0; 0])
                        identity_matrix)
             (vec_of_list [1; 2; 3; 4; 5; 0; 0])) r c
        = identity_matrix r c).
Proof.
  assert (Hl : lower_triangular n_aug_ identity_matrix).
  { intros r c Hrc _. unfold identity_matrix, diag.
    destruct (Nat.eqb_spec r c); [lia | reflexivity]. }
  assert (Hr : square_root n_aug_ identity_matrix identity_matrix).
  { intros r c Hr Hc. unfold n_aug_, n_x_ in Hr, Hc. simpl in Hr, Hc.
    do 7 (destruct r as [|r];
          [do 7 (destruct c as [|c]; [reals; lra|]); lia|]).
    lia. }
  split; [exact Hl|]. split; [exact Hr|].
  destruct (sigma_points_recover_moments
              (vec_of_list [1; 2; 3; 4; 5; 0; 0])
              identity_matrix identity_matrix Hl Hr)
    as (_ & _ & _ & _ & Hs & Hm & Hc).
  split; [exact Hs|]. split; [exact Hm | exact Hc].
Defined.

(** ** Motion model *)

Lemma predict_sigma_point_other_column dt Xa i X r c :
  c <> i -> predict_sigma_point dt Xa i X r c = X r c.
Proof.
  intros Hc. unfold predict_sigma_point.
  destruct (Rgt_dec _ _); unfold mset;
    apply Nat.eqb_neq in Hc; rewrite Hc, ?andb_false_r; reflexivity.
Qed.

Lemma predict_sigma_point_own_column dt Xa i X r :
  (r < n_x_)%nat ->
  predict_sigma_point dt Xa i X r i = predicted_entry dt Xa r i.
Proof.
  unfold n_x_. intros Hr. unfold predicted_entry, predict_sigma_point.
  destruct (Rgt_dec _ _); unfold mset; rewrite Nat.eqb_refl, ?andb_true_r;
    do 5 (destruct r as [|r]; [reflexivity|]); lia.
Qed.

Lemma predicted_sigma_points dt Xa X n r i :
  (i < n)%nat -> (r < n_x_)%nat ->
  for_loop n (predict_sigma_point dt Xa) X r i = predicted_entry dt Xa r i.
Proof.
  intros Hi Hr. induction n as [|n IH]; [lia|]. simpl.
  destruct (Nat.eq_dec i n) as [->|Hne].
  - apply predict_sigma_point_own_column; assumption.
  - rewrite predict_sigma_point_other_column by assumption. apply IH. lia.
Qed.

Lemma predicted_entry_dt0 Xa r i :
  (r < n_x_)%nat -> predicted_entry 0 Xa r i = Xa r i.
Proof.
  unfold n_x_. intros Hr. unfold predicted_entry, predict_sigma_point.
  destruct (Rgt_dec _ _); unfold mset, safe_div;
    rewrite Nat.eqb_refl, ?andb_true_r;
    do 5 (destruct r as [|r];
          [cbn [Nat.eqb andb];
           rewrite ?Rmult_0_r, ?Rplus_0_r, ?Rminus_diag, ?Rmult_0_r,
             ?Rmult_0_l, ?Rplus_0_r;
           try reflexivity; try ring|]);
    lia.
Qed.

Lemma predicted_position_straight dt Xa i :
  Rabs (Xa 4%nat i) <= 0.001 ->
  predicted_entry dt Xa 0 i
  = Xa 0%nat i + Xa 2%nat i * dt * cos (Xa 3%nat i)
    + 0.5 * Xa 5%nat i * dt * dt * cos (Xa 3%nat i)
  /\ predicted_entry dt Xa 1 i
     = Xa 1%nat i + Xa 2%nat i * dt * sin (Xa 3%nat i)
       + 0.5 * Xa 5%nat i * dt * dt * sin (Xa 3%nat i).
Proof.
  intros H. unfold predicted_entry, predict_sigma_point.
  destruct (Rgt_dec _ _) as [g|g]; [lra|].
  unfold mset. rewrite Nat.eqb_refl. split; reflexivity.
Qed.

Lemma predicted_px_straight dt Xa i :
  Rabs (Xa 4%nat i) <= 0.001 ->
  predicted_entry dt Xa 0 i
  = Xa 0%nat i + Xa 2%nat i * dt * cos (Xa 3%nat i)
    + 0.5 * Xa 5%nat i * dt * dt * cos (Xa 3%nat i).
Proof. intros H. apply predicted_position_straight. exact H. Qed.

Lemma predicted_position_curved dt Xa i :
  Rabs (Xa 4%nat i) > 0.001 ->
  predicted_entry dt Xa 0 i
  = Xa 0%nat i
    + Xa 2%nat i / Xa 4%nat i
      * (sin (Xa 3%nat i + Xa 4%nat i * dt) - sin (Xa 3%nat i))
    + 0.5 * Xa 5%nat i * dt * dt * cos (Xa 3%nat i)
  /\ predicted_entry dt Xa 1 i
     = Xa 1%nat i
       + Xa 2%nat i / Xa 4%nat i
         * (cos (Xa 3%nat i) - cos (Xa 3%nat i + Xa 4%nat i * dt))
       + 0.5 * Xa 5%nat i * dt * dt * sin (Xa 3%nat i).
Proof.
  intros H. unfold predicted_entry, predict_sigma_point.
  destruct (Rgt_dec _ _) as [g|g]; [|lra].
  unfold mset, safe_div. rewrite Nat.eqb_refl. split; reflexivity.
Qed.

Lemma augmented_mean_head (s : UKF) (r : nat) :
  (r < n_x_)%nat -> augmented_mean s r = x_ s r.
Proof.
  unfold n_x_. intros Hr.
  do 5 (destruct r as [|r]; [reflexivity|]). lia.
Qed.

Lemma x_diff_entry (X : Mat) (x : Vec) (i r : nat) :
  r <> 3%nat -> x_diff X x i r = X r i - x r.
Proof.
  intros Hr. unfold x_diff, normalize_at, vset.
  apply Nat.eqb_neq in Hr. rewrite Hr. reflexivity.
Qed.

Section PredictionFacts.

Variable llt : nat -> Mat -> Mat.

Lemma Prediction_Xsig_pred (s : UKF) (dt : R) (r i : nat) :
  (r < n_x_)%nat -> (i < n_sig)%nat ->
  Xsig_pred_ (Prediction llt s dt) r i
  = predicted_entry dt (Xsig_aug_of llt s) r i.
Proof.
  intros Hr Hi. unfold Prediction.
  cbn [Xsig_pred_ set_P_ set_x_ set_Xsig_pred_].
  apply predicted_sigma_points; assumption.
Qed.

Lemma Prediction_x (s : UKF) (dt : R) :
  x_ (Prediction llt s dt) = weighted_mean (Xsig_pred_ (Prediction llt s dt)).
Proof. reflexivity. Qed.

Lemma Prediction_P (s : UKF) (dt : R) :
  P_ (Prediction llt s dt)
  = weighted_outer
      (x_diff (Xsig_pred_ (Prediction llt s dt)) (x_ (Prediction llt s dt)))
      (x_diff (Xsig_pred_ (Prediction llt s dt)) (x_ (Prediction llt s dt))).
Proof. reflexivity. Qed.

Lemma Prediction_dt0_mean (s : UKF) (r : nat) :
  (r < n_x_)%nat -> x_ (Prediction llt s 0) r = x_ s r.
Proof.
  intros Hr. rewrite Prediction_x.
  rewrite (weighted_mean_ext _ (Xsig_aug_of llt s)).
  - unfold Xsig_aug_of. rewrite sigma_points_mean.
    apply augmented_mean_head; assumption.
  - intros i Hi. rewrite Prediction_Xsig_pred by assumption.
    apply predicted_entry_dt0; assumption.
Qed.

Lemma Prediction_dt0_deviation (s : UKF) (i r : nat) :
  (r < n_x_)%nat -> r <> 3%nat -> (i < n_sig)%nat ->
  x_diff (Xsig_pred_ (Prediction llt s 0)) (x_ (Prediction llt s 0)) i r
  = deviation (Xsig_aug_of llt s) (augmented_mean s) i r.
Proof.
  intros Hr H3 Hi. rewrite x_diff_entry by assumption.
  rewrite Prediction_Xsig_pred, predicted_entry_dt0 by assumption.
  rewrite Prediction_dt0_mean by assumption.
  rewrite <- augmented_mean_head by assumption.
  reflexivity.
Qed.

(** With an elapsed time of 0 the entries of the covariance outside the
    yaw row and column are those of [L * L.transpose()]. *)
Lemma Prediction_dt0_covariance (s : UKF) (r c : nat) :
  square_root n_aug_ (llt n_aug_ (augmented_covariance s))
    (augmented_covariance s) ->
  (r < n_x_)%nat -> (c < n_x_)%nat -> r <> 3%nat -> c <> 3%nat ->
  P_ (Prediction llt s 0) r c = P_ s r c.
Proof.
  intros Hroot Hr Hc Hr3 Hc3. rewrite Prediction_P.
  rewrite (weighted_outer_ext _ _
             (deviation (Xsig_aug_of llt s) (augmented_mean s))
             (deviation (Xsig_aug_of llt s) (augmented_mean s))).
  - unfold Xsig_aug_of. rewrite sigma_points_covariance.
    rewrite Hroot by (unfold n_aug_, n_x_ in *; lia).
    unfold n_x_ in *.
    do 5 (destruct r as [|r];
          [do 5 (destruct c as [|c]; [reflexivity|]); lia|]).
    lia.
  - intros i Hi. apply Prediction_dt0_deviation; assumption.
  - intros i Hi. apply Prediction_dt0_deviation; assumption.
Qed.

End PredictionFacts.

(** The yaw deviations of the sigma points stay within half a turn when the
    yaw row of the square root does. *)
Lemma sigma_points_yaw_deviation (x : Vec) (L : Mat) (i : nat) :
  (i < n_sig)%nat ->
  (forall k, (k < n_aug_)%nat -> Rabs (spread * L 3%nat k) <= PI) ->
  - PI <= deviation (sigma_points x L) x i 3%nat <= PI.
Proof.
  intros Hi HL. unfold n_sig, n_aug_, n_x_ in Hi. simpl in Hi.
  pose proof PI_RGT_0 as Hpi.
  assert (H : forall k, (k < 7)%nat ->
            - PI <= spread * L 3%nat k <= PI).
  { intros k Hk.
    assert (Hk' : Rabs (spread * L 3%nat k) <= PI)
      by (apply HL; unfold n_aug_, n_x_; lia).
    pose proof (Rle_abs (spread * L 3%nat k)) as H1.
    pose proof (Rle_abs (- (spread * L 3%nat k))) as H2.
    rewrite Rabs_Ropp in H2. lra. }
  unfold deviation, sigma_points.
  change (sqrt (lambda_ + INR n_aug_)) with spread.
  pose proof (H 0%nat ltac:(lia)). pose proof (H 1%nat ltac:(lia)).
  pose proof (H 2%nat ltac:(lia)). pose proof (H 3%nat ltac:(lia)).
  pose proof (H 4%nat ltac:(lia)). pose proof (H 5%nat ltac:(lia)).
  pose proof (H 6%nat ltac:(lia)).
  do 15 (destruct i as [|i]; [unroll; lra|]).
  lia.
Qed.

Lemma Prediction_dt0_yaw_deviation (llt : nat -> Mat -> Mat) (s : UKF)
    (i : nat) :
  (forall k, (k < n_aug_)%nat ->
     Rabs (spread * llt n_aug_ (augmented_covariance s) 3%nat k) <= PI) ->
  (i < n_sig)%nat ->
  x_diff (Xsig_pred_ (Prediction llt s 0)) (x_ (Prediction llt s 0)) i 3%nat
  = deviation (Xsig_aug_of llt s) (augmented_mean s) i 3%nat.
Proof.
  intros Hyaw Hi.
  assert (H3 : (3 < n_x_)%nat) by (unfold n_x_; lia).
  unfold x_diff, normalize_at, vset. cbn [Nat.eqb].
  replace (vsub (col (Xsig_pred_ (Prediction llt s 0)) i)
             (x_ (Prediction llt s 0)) 3%nat)
    with (deviation (Xsig_aug_of llt s) (augmented_mean s) i 3%nat).
  - apply normalize_angle_id.
    apply sigma_points_yaw_deviation; assumption.
  - unfold deviation, vsub, col.
    rewrite Prediction_Xsig_pred, predicted_entry_dt0 by assumption.
    rewrite Prediction_dt0_mean by assumption.
    rewrite augmented_mean_head by assumption. reflexivity.
Qed.

(** C6, amended. In exact arithmetic, for every state and whatever square
    root the factorisation returns, [Prediction] with an elapsed time of 0
    leaves each of the five components of the state mean unchanged; the
    program reproduces the mean up to floating-point rounding. *)
Theorem prediction_zero_dt_keeps_mean
    (llt : nat -> Mat -> Mat) (s : UKF) (r : nat) :
  (r < n_x_)%nat -> x_ (Prediction llt s 0) r = x_ s r.
Proof. apply Prediction_dt0_mean. Qed.

Lemma prediction_zero_dt_keeps_mean_witness :
  x_ (Prediction (fun _ _ => radar_L) radar_initialised 0) 2%nat
  = x_ radar_initialised 2%nat.
Proof.
  apply (prediction_zero_dt_keeps_mean (fun _ _ => radar_L)
           radar_initialised 2).
  unfold n_x_. lia.
Defined.

(** C6, as stated, fails on doubles: the filter initialised by the RADAR
    observation (rho, phi, rho_dot) = (5, 0, 1) has mean speed 1, and after
    [Prediction(0)] the mean speed is 1 - 2^-53, the double just below 1.
    The 15 weights, added in the order of the recombination loop, sum to
    1 - 2^-52. *)
Lemma prediction_zero_dt_rounds_the_mean :
  nth 2 (Binary64.x_ (Binary64.init_from_radar_ahead 5 1)) 0%float = 1%float
  /\ Binary64.Prediction_x2 (Binary64.init_from_radar_ahead 5 1) 0
     = (1 - 0x1p-53)%float
  /\ PrimFloat.eqb
       (Binary64.Prediction_x2 (Binary64.init_from_radar_ahead 5 1) 0) 1
     = false
  /\ fold_left PrimFloat.add Binary64.weights_ 0%float
     = (1 - 0x1p-52)%float.
Proof. vm_compute. repeat split. Qed.

(** ** Initialisation and the dispatch of ProcessMeasurement *)

Lemma mat_of_rows_diag5 (a b c d e : R) (r k : nat) :
  (r < 5)%nat -> (k < 5)%nat ->
  mat_of_rows [[a; 0; 0; 0; 0]; [0; b; 0; 0; 0]; [0; 0; c; 0; 0];
               [0; 0; 0; d; 0]; [0; 0; 0; 0; e]] r k
  = diag [a; b; c; d; e] r k.
Proof.
  intros Hr Hk.
  do 5 (destruct r as [|r];
        [do 5 (destruct k as [|k]; [reflexivity|]); lia|]).
  lia.
Qed.

Lemma elapsed_same_time (s : UKF) (m : MeasurementPackage) :
  timestamp_ m = time_us_ s -> elapsed s m = 0.
Proof. intros H. unfold elapsed. rewrite H, Z.sub_diag. simpl. lra. Qed.

Section Dispatch.

Variable llt : nat -> Mat -> Mat.
Variable inverse : nat -> Mat -> Mat.

Lemma ProcessMeasurement_initialized (s : UKF) (m : MeasurementPackage) :
  is_initialized_ s = true ->
  ProcessMeasurement llt inverse s m = predict_then_update llt inverse s m.
Proof.
  intros Hi. unfold ProcessMeasurement, predict_then_update.
  rewrite Hi. cbn [negb]. destruct (sensor_type_ m); reflexivity.
Qed.

Lemma ProcessMeasurement_first_laser (s : UKF) (m : MeasurementPackage) :
  is_initialized_ s = false -> sensor_type_ m = LASER ->
  use_laser_ s = true ->
  ProcessMeasurement llt inverse s m
  = Some (set_is_initialized_ true
            (init_from_laser m
               (set_x_ vzero (set_time_us_ (timestamp_ m) s)))).
Proof.
  intros Hi Hm Hl. unfold ProcessMeasurement.
  rewrite Hi, Hm. cbn. rewrite Hl. reflexivity.
Qed.

Lemma ProcessMeasurement_first_radar (s : UKF) (m : MeasurementPackage) :
  is_initialized_ s = false -> sensor_type_ m = RADAR ->
  use_radar_ s = true ->
  ProcessMeasurement llt inverse s m
  = Some (set_is_initialized_ true
            (init_from_radar m
               (set_x_ vzero (set_time_us_ (timestamp_ m) s)))).
Proof.
  intros Hi Hm Hr. unfold ProcessMeasurement.
  rewrite Hi, Hm. cbn. rewrite Hr. reflexivity.
Qed.

Lemma ProcessMeasurement_first_disabled (s : UKF) (m : MeasurementPackage) :
  is_initialized_ s = false ->
  (sensor_type_ m = LASER /\ use_laser_ s = false
   \/ sensor_type_ m = RADAR /\ use_radar_ s = false) ->
  ProcessMeasurement llt inverse s m
  = Some (set_is_initialized_ true
            (set_x_ vzero (set_time_us_ (timestamp_ m) s))).
Proof.
  intros Hi [[Hm Hf] | [Hm Hf]]; unfold ProcessMeasurement;
    rewrite Hi, Hm; cbn; rewrite Hf; reflexivity.
Qed.

(** X1. The members a call never writes, and the one it does write: a
    call that has a result keeps [use_laser_] and the seven noise standard
    deviations; [use_radar_] is kept too, except in the laser
    initialisation, where it becomes false. *)
Lemma configuration_frame (s s' : UKF) (m : MeasurementPackage) :
  ProcessMeasurement llt inverse s m = Some s' ->
  use_laser_ s' = use_laser_ s
  /\ std_a_ s' = std_a_ s /\ std_yawdd_ s' = std_yawdd_ s
  /\ std_laspx_ s' = std_laspx_ s /\ std_laspy_ s' = std_laspy_ s
  /\ std_radr_ s' = std_radr_ s /\ std_radphi_ s' = std_radphi_ s
  /\ std_radrd_ s' = std_radrd_ s
  /\ (use_radar_ s' = use_radar_ s
      \/ is_initialized_ s = false /\ sensor_type_ m = LASER
         /\ use_laser_ s = true /\ use_radar_ s' = false).
Proof.
  unfold ProcessMeasurement.
  destruct (is_initialized_ s) eqn:Hi; cbn [negb].
  - destruct (sensor_type_ m) eqn:Hm; cbn [is_laser is_radar].
    + intros H. injection H as <-. cbn. tauto.
    + unfold UpdateRadar. destruct (radar_Zsig _); [|discriminate].
      intros H. injection H as <-. cbn. tauto.
  - destruct (sensor_type_ m) eqn:Hm, (use_laser_ s) eqn:Hl,
      (use_radar_ s) eqn:Hr; cbn; intros H; injection H as <-; cbn;
      rewrite ?Hl, ?Hr; tauto.
Qed.

End Dispatch.

(** C8. On a filter that is not yet initialised and has both sensors
    enabled, as the constructor leaves them, the call with a laser
    observation (x, y) sets the mean to (x, y, 0.2, 0, 0) and the covariance
    to diag(0.01, 0.01, 1, 1, 1), the call with a radar observation
    (rho, phi, rho_dot) sets the mean to
    (rho cos phi, rho sin phi, rho_dot, phi, 0) and the covariance to
    diag(0.01, 0.01, 0.01, 0.09, 0.09); in both cases the stored timestamp
    becomes the observation's, the filter is marked initialised and the
    predicted sigma points are untouched (no prediction, no correction).
    On an initialised filter the call is the prediction followed by the
    correction, never the initialisation. *)
Theorem first_observation_initialises
    (llt inverse : nat -> Mat -> Mat) (s : UKF) (m : MeasurementPackage) :
  use_laser_ s = true -> use_radar_ s = true ->
  (is_initialized_ s = false ->
   exists s',
     ProcessMeasurement llt inverse s m = Some s'
     /\ is_initialized_ s' = true
     /\ time_us_ s' = timestamp_ m
     /\ Xsig_pred_ s' = Xsig_pred_ s
     /\ match sensor_type_ m with
        | LASER =>
            (forall i, (i < n_x_)%nat ->
               x_ s' i = vec_of_list [raw_measurements_ m 0%nat;
                                      raw_measurements_ m 1%nat;
                                      0.2; 0; 0] i)
            /\ (forall r c, (r < n_x_)%nat -> (c < n_x_)%nat ->
                  P_ s' r c = diag [0.01; 0.01; 1; 1; 1] r c)
        | RADAR =>
            let rho := raw_measurements_ m 0%nat in
            let phi := raw_measurements_ m 1%nat in
            let rho_dot := raw_measurements_ m 2%nat in
            (forall i, (i < n_x_)%nat ->
               x_ s' i = vec_of_list [rho * cos phi; rho * sin phi;
                                      rho_dot; phi; 0] i)
            /\ (forall r c, (r < n_x_)%nat -> (c < n_x_)%nat ->
                  P_ s' r c = diag [0.01; 0.01; 0.01; 0.09; 0.09] r c)
        end)
  /\ (is_initialized_ s = true ->
      ProcessMeasurement llt inverse s m
      = predict_then_update llt inverse s m).
Proof.
  intros Hl Hr. split.
  - intros Hi. destruct (sensor_type_ m) eqn:Hm.
    + eexists. split; [apply ProcessMeasurement_first_laser; assumption|].
      cbn. repeat (split; [reflexivity|]). split.
      * intros i Hi5. unfold n_x_ in Hi5.
        do 5 (destruct i as [|i]; [reflexivity|]). lia.
      * intros r c H1 H2. apply mat_of_rows_diag5; assumption.
    + eexists. split; [apply ProcessMeasurement_first_radar; assumption|].
      cbn. repeat (split; [reflexivity|]). split.
      * intros i Hi5. unfold n_x_ in Hi5.
        do 5 (destruct i as [|i]; [reflexivity|]). lia.
      * intros r c H1 H2. apply mat_of_rows_diag5; assumption.
  - apply ProcessMeasurement_initialized.
Qed.

Lemma first_observation_initialises_witness :
  exists s',
    ProcessMeasurement (fun _ _ => mzero) (fun _ _ => mzero)
      (UKF_new vzero mzero mzero 0) (laser_observation 7 (vec_of_list [5; 3]))
    = Some s'
    /\ is_initialized_ s' = true
    /\ time_us_ s' = 7%Z
    /\ (forall i, (i < n_x_)%nat ->
          x_ s' i = vec_of_list [5; 3; 0.2; 0; 0] i)
    /\ (forall r c, (r < n_x_)%nat -> (c < n_x_)%nat ->
          P_ s' r c = diag [0.01; 0.01; 1; 1; 1] r c).
Proof.
  destruct (first_observation_initialises (fun _ _ => mzero)
              (fun _ _ => mzero) (UKF_new vzero mzero mzero 0)
              (laser_observation 7 (vec_of_list [5; 3])) eq_refl eq_refl)
    as [Hfirst _].
  destruct (Hfirst eq_refl) as (s' & E & Hi & Ht & _ & Hx & HP).
  exists s'. split; [exact E|]. split; [exact Hi|]. split; [exact Ht|].
  split; [exact Hx | exact HP].
Defined.

(** ** Sensor flags *)

(** C1. Evaluation of the code on a filter whose radar is disabled and
    that is fed radar observations only: the first call fills the mean with
    zeros, leaves the covariance as the constructor left it and marks the
    filter initialised; the second call is then the full prediction and
    radar correction. *)
Theorem disabled_radar_marks_initialized
    (llt inverse : nat -> Mat -> Mat) (x0 : Vec) (P0 Xsig0 : Mat) (t0 : Z)
    (t1 t2 : Z) (z1 z2 : Vec) :
  let s0 := set_use_radar_ false (UKF_new x0 P0 Xsig0 t0) in
  exists s1,
    ProcessMeasurement llt inverse s0 (radar_observation t1 z1) = Some s1
    /\ process_all llt inverse s0 [radar_observation t1 z1] = Some s1
    /\ use_radar_ s1 = false
    /\ is_initialized_ s1 = true
    /\ x_ s1 = vzero
    /\ P_ s1 = P0
    /\ ProcessMeasurement llt inverse s1 (radar_observation t2 z2)
       = match UpdateRadar inverse
                 (Prediction llt s1 (IZR (t2 - t1) / 1000000))
                 (radar_observation t2 z2) with
         | Some s2 => Some (set_time_us_ t2 s2)
         | None => None
         end.
Proof.
  intros s0. eexists. split.
  - apply ProcessMeasurement_first_disabled; [reflexivity|].
    right. split; reflexivity.
  - do 5 (split; [reflexivity|]).
    rewrite ProcessMeasurement_initialized by reflexivity.
    reflexivity.
Qed.

(** C4. Evaluation of the code on a freshly constructed filter and a laser
    observation: the radar flag, true after construction, is false after
    the call. *)
Theorem laser_initialisation_clears_use_radar
    (llt inverse : nat -> Mat -> Mat) (x0 : Vec) (P0 Xsig0 : Mat) (t0 : Z)
    (t : Z) (z : Vec) :
  use_radar_ (UKF_new x0 P0 Xsig0 t0) = true
  /\ exists s',
       ProcessMeasurement llt inverse (UKF_new x0 P0 Xsig0 t0)
         (laser_observation t z) = Some s'
       /\ use_radar_ s' = false.
Proof.
  split; [reflexivity|].
  eexists. split.
  - apply ProcessMeasurement_first_laser; reflexivity.
  - reflexivity.
Qed.

(** ** Laser correction *)

Lemma P_set_time_us_ (t : Z) (s : UKF) : P_ (set_time_us_ t s) = P_ s.
Proof. reflexivity. Qed.

Lemma UpdateLidar_P (inverse : nat -> Mat -> Mat) (s : UKF)
    (m : MeasurementPackage) :
  P_ (UpdateLidar inverse s m)
  = msub (P_ s)
      (mmul 2 (mmul 2 (lidar_K inverse s) (lidar_S s))
         (transpose (lidar_K inverse s))).
Proof. reflexivity. Qed.

Lemma lidar_Zsig_entry (s : UKF) (r i : nat) :
  (r < 2)%nat -> (i < n_sig)%nat -> lidar_Zsig s r i = Xsig_pred_ s r i.
Proof.
  intros Hr Hi. unfold n_sig, n_aug_, n_x_ in Hi. simpl in Hi.
  do 15 (destruct i as [|i];
         [do 2 (destruct r as [|r]; [reflexivity|]); lia|]).
  lia.
Qed.

Lemma lidar_innovation_unwrapped_components
    (s : UKF) (m : MeasurementPackage) (r : nat) :
  r <> 1%nat ->
  lidar_innovation s m r = raw_measurements_ m r - lidar_z_pred s r.
Proof.
  intros Hr. unfold lidar_innovation, normalize_at, vset, vsub.
  apply Nat.eqb_neq in Hr. rewrite Hr. reflexivity.
Qed.

(** The residual of the second component goes through the angle loops. *)
Lemma lidar_innovation_wrapped_component
    (s : UKF) (m : MeasurementPackage) :
  lidar_innovation s m 1%nat
  = normalize_angle (raw_measurements_ m 1%nat - lidar_z_pred s 1%nat).
Proof. reflexivity. Qed.

Section LidarAfterPrediction.

Variable llt : nat -> Mat -> Mat.
Variable inverse : nat -> Mat -> Mat.

Lemma lidar_z_pred_after_prediction (s : UKF) (dt : R) (r : nat) :
  (r < 2)%nat ->
  lidar_z_pred (Prediction llt s dt) r = x_ (Prediction llt s dt) r.
Proof.
  intros Hr. unfold lidar_z_pred. rewrite Prediction_x.
  apply weighted_mean_ext. intros i Hi. apply lidar_Zsig_entry; assumption.
Qed.

Lemma lidar_z_diff_after_prediction (s : UKF) (dt : R) (i c : nat) :
  (c < 2)%nat -> (i < n_sig)%nat ->
  lidar_z_diff (Prediction llt s dt) i c
  = x_diff (Xsig_pred_ (Prediction llt s dt)) (x_ (Prediction llt s dt)) i c.
Proof.
  intros Hc Hi. rewrite x_diff_entry by lia.
  unfold lidar_z_diff, vsub, col.
  rewrite lidar_Zsig_entry, lidar_z_pred_after_prediction by assumption.
  reflexivity.
Qed.

Lemma lidar_S_after_prediction (s : UKF) (dt : R) (r c : nat) :
  (r < 2)%nat -> (c < 2)%nat ->
  lidar_S (Prediction llt s dt) r c
  = P_ (Prediction llt s dt) r c + lidar_R (Prediction llt s dt) r c.
Proof.
  intros Hr Hc. unfold lidar_S, madd. f_equal.
  rewrite Prediction_P.
  apply weighted_outer_ext; intros i Hi;
    apply lidar_z_diff_after_prediction; assumption.
Qed.

Lemma lidar_Tc_after_prediction (s : UKF) (dt : R) (r c : nat) :
  (c < 2)%nat ->
  lidar_Tc (Prediction llt s dt) r c = P_ (Prediction llt s dt) r c.
Proof.
  intros Hc. unfold lidar_Tc.
  rewrite Prediction_P.
  apply weighted_outer_ext; intros i Hi.
  - reflexivity.
  - apply lidar_z_diff_after_prediction; assumption.
Qed.

End LidarAfterPrediction.

(** C3. Evaluation of the code on a freshly constructed filter fed the
    laser observation (5, 3) and then, at the same timestamp, the laser
    observation (5, 10): the raw observation minus the predicted
    measurement mean is 7 in its second component, and the innovation that
    enters the state update is 7 - 2 PI there. *)
Theorem lidar_innovation_is_wrapped
    (llt inverse : nat -> Mat -> Mat) (x0 : Vec) (P0 Xsig0 : Mat) (t0 : Z) :
  let m1 := laser_observation 0 (vec_of_list [5; 3]) in
  let m2 := laser_observation 0 (vec_of_list [5; 10]) in
  exists s1,
    ProcessMeasurement llt inverse (UKF_new x0 P0 Xsig0 t0) m1 = Some s1
    /\ exists sp,
         sp = Prediction llt s1 (elapsed s1 m2)
         /\ ProcessMeasurement llt inverse s1 m2
            = Some (set_time_us_ 0 (UpdateLidar inverse sp m2))
         /\ x_ (UpdateLidar inverse sp m2)
            = vadd (x_ sp)
                (mvmul 2 (lidar_K inverse sp) (lidar_innovation sp m2))
         /\ raw_measurements_ m2 1%nat - lidar_z_pred sp 1%nat = 7
         /\ lidar_innovation sp m2 1%nat = 7 - 2 * PI.
Proof.
  intros m1 m2. eexists. split.
  { apply ProcessMeasurement_first_laser; reflexivity. }
  set (s1 := set_is_initialized_ _ _).
  eexists. split; [reflexivity|].
  split.
  { rewrite ProcessMeasurement_initialized by reflexivity. reflexivity. }
  split; [reflexivity|].
  rewrite elapsed_same_time by reflexivity.
  assert (Hz : lidar_z_pred (Prediction llt s1 0) 1%nat = 3).
  { rewrite lidar_z_pred_after_prediction by lia.
    rewrite Prediction_dt0_mean by (unfold n_x_; lia). reflexivity. }
  assert (Hd : raw_measurements_ m2 1%nat
               - lidar_z_pred (Prediction llt s1 0) 1%nat = 7).
  { rewrite Hz. cbn. lra. }
  split; [exact Hd|].
  rewrite lidar_innovation_wrapped_component, Hd.
  apply normalize_angle_one_turn_down.
  pose proof PI_4. pose proof PI2_3_2. lra.
Qed.

(** C2. Evaluation of the code on a filter whose laser is disabled, that
    was initialised by the radar observation (5, 0, 1) and is then handed a
    laser observation with the same timestamp: when the factorisation
    returns a square root of the augmented covariance and the inversion an
    inverse of the innovation covariance, the call goes through and the
    variance of the x position drops from 0.01 to 0.01 - 1/325. *)
Theorem disabled_laser_still_corrects
    (llt inverse : nat -> Mat -> Mat) (x0 : Vec) (P0 Xsig0 : Mat) (t0 : Z)
    (z : Vec) :
  let s0 := set_use_laser_ false (UKF_new x0 P0 Xsig0 t0) in
  let m1 := radar_observation 0 (vec_of_list [5; 0; 1]) in
  let s1 :=
    set_is_initialized_ true
      (init_from_radar m1 (set_x_ vzero (set_time_us_ 0 s0))) in
  ProcessMeasurement llt inverse s0 m1 = Some s1
  /\ is_initialized_ s1 = true
  /\ use_laser_ s1 = false
  /\ P_ s1 0%nat 0%nat = 0.01
  /\ (square_root n_aug_ (llt n_aug_ (augmented_covariance s1))
        (augmented_covariance s1) ->
      right_inverse 2 (lidar_S (Prediction llt s1 0))
        (inverse 2%nat (lidar_S (Prediction llt s1 0))) ->
      exists s2,
        ProcessMeasurement llt inverse s1 (laser_observation 0 z) = Some s2
        /\ P_ s2 0%nat 0%nat = 0.01 - 1 / 325).
Proof.
  intros s0 m1 s1. split.
  { apply ProcessMeasurement_first_radar; reflexivity. }
  do 3 (split; [reflexivity|]).
  intros Hroot Hinv.
  rewrite ProcessMeasurement_initialized by reflexivity.
  unfold predict_then_update. cbn [sensor_type_ laser_observation timestamp_].
  rewrite elapsed_same_time by reflexivity.
  eexists. split; [reflexivity|].
  rewrite P_set_time_us_, UpdateLidar_P.
  unfold msub, lidar_K.
  set (Si := inverse 2%nat (lidar_S (Prediction llt s1 0))) in *.
  cbv [mmul rsum transpose].
  pose proof (Hinv 0%nat 0%nat ltac:(lia) ltac:(lia)) as H00.
  pose proof (Hinv 0%nat 1%nat ltac:(lia) ltac:(lia)) as H01.
  cbv [mmul rsum transpose Nat.eqb] in H00, H01.
  assert (HP : forall r c, (r < 5)%nat -> (c < 5)%nat ->
                 r <> 3%nat -> c <> 3%nat ->
                 P_ (Prediction llt s1 0) r c = P_ s1 r c).
  { intros. apply Prediction_dt0_covariance; assumption. }
  rewrite !lidar_Tc_after_prediction by lia.
  rewrite !lidar_S_after_prediction in * by lia.
  rewrite !HP in * by lia.
  change (P_ s1 0%nat 0%nat) with 0.01 in *.
  change (P_ s1 0%nat 1%nat) with 0 in *.
  change (P_ s1 1%nat 0%nat) with 0 in *.
  change (P_ s1 1%nat 1%nat) with 0.01 in *.
  change (lidar_R (Prediction llt s1 0) 0%nat 0%nat) with (0.15 * 0.15) in *.
  change (lidar_R (Prediction llt s1 0) 0%nat 1%nat) with 0 in *.
  change (lidar_R (Prediction llt s1 0) 1%nat 0%nat) with 0 in *.
  change (lidar_R (Prediction llt s1 0) 1%nat 1%nat) with (0.15 * 0.15) in *.
  assert (Ha : Si 0%nat 0%nat = 400 / 13) by lra.
  assert (Hb : Si 0%nat 1%nat = 0) by lra.
  rewrite Ha, Hb. lra.
Qed.

Lemma radar_L_square_root :
  square_root n_aug_ radar_L (augmented_covariance radar_initialised).
Proof.
  intros r c Hr Hc. unfold n_aug_, n_x_ in Hr, Hc. simpl in Hr, Hc.
  do 7 (destruct r as [|r];
        [do 7 (destruct c as [|c]; [reals; lra|]); lia|]).
  lia.
Qed.

Lemma radar_L_yaw_spread (k : nat) :
  (k < n_aug_)%nat -> Rabs (spread * radar_L 3%nat k) <= PI.
Proof.
  intros Hk. unfold n_aug_, n_x_ in Hk. simpl in Hk.
  pose proof spread_pos. pose proof spread_le_2. pose proof PI2_3_2.
  do 7 (destruct k as [|k];
        [cbv [radar_L diag nth Nat.eqb];
         first [rewrite Rmult_0_r, Rabs_R0; lra
               | rewrite Rabs_pos_eq by nra; nra]|]).
  lia.
Qed.

Lemma radar_lidar_S_inverse :
  right_inverse 2
    (lidar_S (Prediction (fun _ _ => radar_L) radar_initialised 0))
    lidar_S_inverse.
Proof.
  intros r c Hr Hc.
  cbv [mmul rsum].
  rewrite !lidar_S_after_prediction by lia.
  rewrite !Prediction_dt0_covariance
    by (try exact radar_L_square_root; unfold n_x_; lia).
  do 2 (destruct r as [|r];
        [do 2 (destruct c as [|c]; [reals; lra|]); lia|]).
  lia.
Qed.

Lemma disabled_laser_still_corrects_witness :
  use_laser_ radar_initialised = false
  /\ exists s2,
       ProcessMeasurement (fun _ _ => radar_L) (fun _ _ => lidar_S_inverse)
         radar_initialised (laser_observation 0 (vec_of_list [6; 0]))
       = Some s2
       /\ P_ s2 0%nat 0%nat = 0.01 - 1 / 325.
Proof.
  split; [reflexivity|].
  apply (disabled_laser_still_corrects (fun _ _ => radar_L)
           (fun _ _ => lidar_S_inverse) vzero mzero mzero 0
           (vec_of_list [6; 0])).
  - exact radar_L_square_root.
  - exact radar_lidar_S_inverse.
Defined.

(** ** Divisors *)

Lemma radar_measurement_model_defined
    (Xsig_pred : Mat) (i : nat) (Zsig : Mat) :
  range_of Xsig_pred i <> 0 ->
  exists Zsig',
    radar_measurement_model Xsig_pred i Zsig = Some Zsig'
    /\ Zsig' 0%nat i = range_of Xsig_pred i
    /\ Zsig' 1%nat i = atan2 (Xsig_pred 1%nat i) (Xsig_pred 0%nat i)
    /\ Zsig' 2%nat i
       = range_rate_numerator Xsig_pred i / range_of Xsig_pred i.
Proof.
  intros Hr. unfold radar_measurement_model, checked_div.
  fold (range_of Xsig_pred i).
  destruct (Req_dec_T (range_of Xsig_pred i) 0) as [E|E]; [contradiction|].
  eexists. split; [reflexivity|].
  unfold mset, safe_div, range_rate_numerator.
  rewrite Nat.eqb_refl. cbn [Nat.eqb andb]. repeat split.
Qed.

Lemma radar_measurement_model_undefined
    (Xsig_pred : Mat) (i : nat) (Zsig : Mat) :
  range_of Xsig_pred i = 0 ->
  radar_measurement_model Xsig_pred i Zsig = None.
Proof.
  intros Hr. unfold radar_measurement_model, checked_div.
  fold (range_of Xsig_pred i).
  destruct (Req_dec_T (range_of Xsig_pred i) 0) as [E|E];
    [reflexivity | contradiction].
Qed.

(** C9, as stated, fails on the radar projection: whatever bound is taken
    for "near zero", a sigma point at the origin has a range within the
    bound and its range rate is the quotient by that range. *)
Lemma radar_range_is_not_guarded :
  ~ exists eps : R, 0 <= eps /\ range_guarded eps.
Proof.
  intros (eps & Heps & Hg).
  assert (H0 : range_of mzero 0 = 0).
  { unfold range_of, mzero. rewrite Rmult_0_l, Rplus_0_l. apply sqrt_0. }
  apply (Hg mzero 0%nat mzero).
  - rewrite H0. exact Heps.
  - apply radar_measurement_model_undefined. exact H0.
Qed.

(** C9, amended. In the motion model a sigma point whose turn rate is at
    most 0.001 in absolute value advances by the linear formula, in which
    the turn rate does not occur, and the quotient by the turn rate is
    taken only for a turn rate above 0.001 in absolute value, hence not
    zero. The radar projection has no such guard: its range rate is the
    quotient by the range whenever the range is not zero, however small,
    and has no value when the range is zero. *)
Theorem near_zero_divisors
    (delta_t : R) (Xsig_aug X Xsig_pred Zsig : Mat) (i : nat) :
  (Rabs (Xsig_aug 4%nat i) <= 0.001 ->
   predict_sigma_point delta_t Xsig_aug i X 0%nat i
   = Xsig_aug 0%nat i
     + Xsig_aug 2%nat i * delta_t * cos (Xsig_aug 3%nat i)
     + 0.5 * Xsig_aug 5%nat i * delta_t * delta_t * cos (Xsig_aug 3%nat i)
   /\ predict_sigma_point delta_t Xsig_aug i X 1%nat i
      = Xsig_aug 1%nat i
        + Xsig_aug 2%nat i * delta_t * sin (Xsig_aug 3%nat i)
        + 0.5 * Xsig_aug 5%nat i * delta_t * delta_t
          * sin (Xsig_aug 3%nat i))
  /\ (Rabs (Xsig_aug 4%nat i) > 0.001 ->
      Xsig_aug 4%nat i <> 0
      /\ predict_sigma_point delta_t Xsig_aug i X 0%nat i
         = Xsig_aug 0%nat i
           + Xsig_aug 2%nat i / Xsig_aug 4%nat i
             * (sin (Xsig_aug 3%nat i + Xsig_aug 4%nat i * delta_t)
                - sin (Xsig_aug 3%nat i))
           + 0.5 * Xsig_aug 5%nat i * delta_t * delta_t
             * cos (Xsig_aug 3%nat i)
      /\ predict_sigma_point delta_t Xsig_aug i X 1%nat i
         = Xsig_aug 1%nat i
           + Xsig_aug 2%nat i / Xsig_aug 4%nat i
             * (cos (Xsig_aug 3%nat i)
                - cos (Xsig_aug 3%nat i + Xsig_aug 4%nat i * delta_t))
           + 0.5 * Xsig_aug 5%nat i * delta_t * delta_t
             * sin (Xsig_aug 3%nat i))
  /\ (range_of Xsig_pred i <> 0 ->
      exists Zsig',
        radar_measurement_model Xsig_pred i Zsig = Some Zsig'
        /\ Zsig' 2%nat i
           = range_rate_numerator Xsig_pred i / range_of Xsig_pred i)
  /\ (range_of Xsig_pred i = 0 ->
      radar_measurement_model Xsig_pred i Zsig = None).
Proof.
  split; [|split; [|split]].
  - intros H.
    rewrite !predict_sigma_point_own_column by (unfold n_x_; lia).
    apply predicted_position_straight. exact H.
  - intros H. split; [apply turn_rate_guard; exact H|].
    rewrite !predict_sigma_point_own_column by (unfold n_x_; lia).
    apply predicted_position_curved. exact H.
  - intros H.
    destruct (radar_measurement_model_defined Xsig_pred i Zsig H)
      as (Z' & E & _ & _ & E2).
    exists Z'. split; assumption.
  - apply radar_measurement_model_undefined.
Qed.

Lemma near_zero_divisors_witness :
  predict_sigma_point 1 mzero 0 mzero 0%nat 0%nat
  = mzero 0%nat 0%nat + mzero 2%nat 0%nat * 1 * cos (mzero 3%nat 0%nat)
    + 0.5 * mzero 5%nat 0%nat * 1 * 1 * cos (mzero 3%nat 0%nat)
  /\ radar_measurement_model mzero 0 mzero = None.
Proof.
  destruct (near_zero_divisors 1 mzero mzero mzero mzero 0)
    as (Hs & _ & _ & Hz).
  split.
  - apply Hs. unfold mzero. rewrite Rabs_R0. lra.
  - apply Hz. unfold range_of, mzero.
    rewrite Rmult_0_l, Rplus_0_l. apply sqrt_0.
Defined.

(** ** Symmetry and definiteness of the covariance *)

Lemma gain_product_symmetric_2 (K S : Mat) (r c : nat) :
  symmetric 2 S ->
  mmul 2 (mmul 2 K S) (transpose K) r c
  = mmul 2 (mmul 2 K S) (transpose K) c r.
Proof.
  intros HS. cbv [mmul rsum transpose].
  rewrite (HS 1%nat 0%nat) by lia. ring.
Qed.

Lemma gain_product_symmetric_3 (K S : Mat) (r c : nat) :
  symmetric 3 S ->
  mmul 3 (mmul 3 K S) (transpose K) r c
  = mmul 3 (mmul 3 K S) (transpose K) c r.
Proof.
  intros HS. cbv [mmul rsum transpose].
  rewrite (HS 1%nat 0%nat), (HS 2%nat 0%nat), (HS 2%nat 1%nat) by lia.
  ring.
Qed.

Lemma lidar_S_symmetric (s : UKF) : symmetric 2 (lidar_S s).
Proof.
  intros r c Hr Hc. unfold lidar_S, madd.
  rewrite weighted_outer_symmetric. f_equal.
  do 2 (destruct r as [|r];
        [do 2 (destruct c as [|c]; [reflexivity|]); lia|]).
  lia.
Qed.

Lemma radar_S_symmetric (s : UKF) (Zsig : Mat) :
  symmetric 3 (radar_S s Zsig).
Proof.
  intros r c Hr Hc. unfold radar_S, madd.
  rewrite weighted_outer_symmetric. f_equal.
  do 3 (destruct r as [|r];
        [do 3 (destruct c as [|c]; [reflexivity|]); lia|]).
  lia.
Qed.

Lemma product_with_transpose_symmetric (n m : nat) (L : Mat) :
  symmetric m (mmul n L (transpose L)).
Proof.
  intros r c _ _. unfold mmul, transpose.
  apply rsum_ext. intros k _. ring.
Qed.

Lemma Prediction_symmetric (llt : nat -> Mat -> Mat) (s : UKF) (dt : R) :
  symmetric n_x_ (P_ (Prediction llt s dt)).
Proof.
  intros r c _ _. rewrite Prediction_P. apply weighted_outer_symmetric.
Qed.

Lemma UpdateLidar_symmetric (inverse : nat -> Mat -> Mat) (s : UKF)
    (m : MeasurementPackage) :
  symmetric n_x_ (P_ s) -> symmetric n_x_ (P_ (UpdateLidar inverse s m)).
Proof.
  intros H r c Hr Hc. rewrite UpdateLidar_P. unfold msub.
  rewrite (H r c Hr Hc).
  rewrite (gain_product_symmetric_2 _ _ r c (lidar_S_symmetric s)).
  reflexivity.
Qed.

Lemma UpdateRadar_symmetric (inverse : nat -> Mat -> Mat) (s : UKF)
    (m : MeasurementPackage) :
  symmetric n_x_ (P_ s) ->
  forall s', UpdateRadar inverse s m = Some s' -> symmetric n_x_ (P_ s').
Proof.
  intros H s' E r c Hr Hc. unfold UpdateRadar in E.
  destruct (radar_Zsig s) as [Zsig|]; [|discriminate].
  injection E as <-.
  change (msub (P_ s)
            (mmul 3 (mmul 3 (radar_K inverse s Zsig) (radar_S s Zsig))
               (transpose (radar_K inverse s Zsig))) r c
          = msub (P_ s)
              (mmul 3 (mmul 3 (radar_K inverse s Zsig) (radar_S s Zsig))
                 (transpose (radar_K inverse s Zsig))) c r).
  unfold msub.
  rewrite (H r c Hr Hc).
  rewrite (gain_product_symmetric_3 _ _ r c (radar_S_symmetric s Zsig)).
  reflexivity.
Qed.

(** *** The laser correction keeps positive semi-definiteness

    After a prediction the cross correlation is the first two columns of
    the covariance and the innovation covariance is its position block plus
    the measurement noise, so the corrected covariance is a Schur
    complement. *)

(** A right inverse of a 2 x 2 matrix is a left inverse. *)
Lemma right_inverse_2_commutes (A B : Mat) :
  right_inverse 2 A B -> right_inverse 2 B A.
Proof.
  intros H.
  pose proof (H 0%nat 0%nat ltac:(lia) ltac:(lia)) as H00.
  pose proof (H 0%nat 1%nat ltac:(lia) ltac:(lia)) as H01.
  pose proof (H 1%nat 0%nat ltac:(lia) ltac:(lia)) as H10.
  pose proof (H 1%nat 1%nat ltac:(lia) ltac:(lia)) as H11.
  cbv [mmul rsum Nat.eqb] in H00, H01, H10, H11.
  set (a := A 0%nat 0%nat) in *. set (b := A 0%nat 1%nat) in *.
  set (c := A 1%nat 0%nat) in *. set (d := A 1%nat 1%nat) in *.
  set (p := B 0%nat 0%nat) in *. set (q := B 0%nat 1%nat) in *.
  set (r := B 1%nat 0%nat) in *. set (t := B 1%nat 1%nat) in *.
  assert (Hp : (a * d - b * c) * p = d).
  { transitivity (d * (0 + a * p + b * r) - b * (0 + c * p + d * r));
      [ring | rewrite H00, H10; ring]. }
  assert (Hq : (a * d - b * c) * q = - b).
  { transitivity (d * (0 + a * q + b * t) - b * (0 + c * q + d * t));
      [ring | rewrite H01, H11; ring]. }
  assert (Hr : (a * d - b * c) * r = - c).
  { transitivity (a * (0 + c * p + d * r) - c * (0 + a * p + b * r));
      [ring | rewrite H00, H10; ring]. }
  assert (Ht : (a * d - b * c) * t = a).
  { transitivity (a * (0 + c * q + d * t) - c * (0 + a * q + b * t));
      [ring | rewrite H01, H11; ring]. }
  assert (Hdet : (a * d - b * c) * (p * t - q * r) = 1).
  { transitivity ((0 + a * p + b * r) * (0 + c * q + d * t)
                  - (0 + a * q + b * t) * (0 + c * p + d * r));
      [ring | rewrite H00, H01, H10, H11; ring]. }
  assert (Hnz : a * d - b * c <> 0).
  { intros E. rewrite E, Rmult_0_l in Hdet. lra. }
  intros i j Hi Hj.
  apply (Rmult_eq_reg_l (a * d - b * c)); [|exact Hnz].
  destruct i as [|[|i]]; [| |lia]; (destruct j as [|[|j]]; [| |lia]);
    cbv [mmul rsum Nat.eqb]; fold a b c d p q r t.
  - transitivity ((a * d - b * c) * p * a + (a * d - b * c) * q * c);
      [ring | rewrite Hp, Hq; ring].
  - transitivity ((a * d - b * c) * p * b + (a * d - b * c) * q * d);
      [ring | rewrite Hp, Hq; ring].
  - transitivity ((a * d - b * c) * r * a + (a * d - b * c) * t * c);
      [ring | rewrite Hr, Ht; ring].
  - transitivity ((a * d - b * c) * r * b + (a * d - b * c) * t * d);
      [ring | rewrite Hr, Ht; ring].
Qed.

(** [u.transpose() * (K * S * K.transpose()) * u] is the quadratic form of
    [S] at [K.transpose() * u]. *)
Lemma gain_quadratic_form_2 (P K S : Mat) (u : Vec) :
  quadratic_form n_x_ (msub P (mmul 2 (mmul 2 K S) (transpose K))) u
  = quadratic_form n_x_ P u
    - quadratic_form 2 S (fun a => rsum n_x_ (fun r => K r a * u r)).
Proof.
  cbv [quadratic_form msub mmul transpose rsum n_x_ Nat.add]. ring.
Qed.

(** With [y = K.transpose() * u] and [v = u - (y, 0, 0, 0)]:
    [u' (P - K S K') u = v' P v + y' R y]. *)
Lemma schur_complement_psd (P R Tc S Sinv : Mat) :
  symmetric n_x_ P ->
  positive_semidefinite n_x_ P ->
  positive_semidefinite 2 R ->
  (forall r c, (r < n_x_)%nat -> (c < 2)%nat -> Tc r c = P r c) ->
  (forall r c, (r < 2)%nat -> (c < 2)%nat -> S r c = P r c + R r c) ->
  symmetric 2 S ->
  right_inverse 2 Sinv S ->
  positive_semidefinite n_x_
    (msub P (mmul 2 (mmul 2 (mmul 2 Tc Sinv) S)
               (transpose (mmul 2 Tc Sinv)))).
Proof.
  intros Hsym Hpsd HR HTc HS HSsym Hinv u.
  rewrite gain_quadratic_form_2.
  set (w0 := rsum n_x_ (fun r => P r 0%nat * u r)).
  set (w1 := rsum n_x_ (fun r => P r 1%nat * u r)).
  set (y := fun a => rsum n_x_ (fun r => mmul 2 Tc Sinv r a * u r)).
  assert (Hy : forall a, y a = Sinv 0%nat a * w0 + Sinv 1%nat a * w1).
  { intros a. unfold y, w0, w1. cbv [mmul rsum n_x_ Nat.add].
    rewrite !HTc by (unfold n_x_; lia). ring. }
  pose proof (Hinv 0%nat 0%nat ltac:(lia) ltac:(lia)) as I00.
  pose proof (Hinv 0%nat 1%nat ltac:(lia) ltac:(lia)) as I01.
  pose proof (Hinv 1%nat 0%nat ltac:(lia) ltac:(lia)) as I10.
  pose proof (Hinv 1%nat 1%nat ltac:(lia) ltac:(lia)) as I11.
  cbv [mmul rsum Nat.eqb] in I00, I01, I10, I11.
  pose proof (HSsym 1%nat 0%nat ltac:(lia) ltac:(lia)) as S10.
  assert (E0 : S 0%nat 0%nat * y 0%nat + S 0%nat 1%nat * y 1%nat = w0).
  { rewrite !Hy.
    transitivity
      (w0 * (0 + Sinv 0%nat 0%nat * S 0%nat 0%nat
               + Sinv 0%nat 1%nat * S 0%nat 1%nat)
       + w1 * (0 + Sinv 1%nat 0%nat * S 0%nat 0%nat
                 + Sinv 1%nat 1%nat * S 0%nat 1%nat)); [ring|].
    rewrite <- S10, I00, I10. ring. }
  assert (E1 : S 1%nat 0%nat * y 0%nat + S 1%nat 1%nat * y 1%nat = w1).
  { rewrite !Hy.
    transitivity
      (w0 * (0 + Sinv 0%nat 0%nat * S 1%nat 0%nat
               + Sinv 0%nat 1%nat * S 1%nat 1%nat)
       + w1 * (0 + Sinv 1%nat 0%nat * S 1%nat 0%nat
                 + Sinv 1%nat 1%nat * S 1%nat 1%nat)); [ring|].
    rewrite S10, I01, I11. ring. }
  clearbody y.
  set (v := fun r => match r with
                     | O => u 0%nat - y 0%nat
                     | S O => u 1%nat - y 1%nat
                     | _ => u r
                     end).
  pose proof (Hpsd v) as Hv. pose proof (HR y) as Hr.
  assert (E : quadratic_form n_x_ P u - quadratic_form 2 S y
              = quadratic_form n_x_ P v + quadratic_form 2 R y
                + 2 * (y 0%nat
                       * (w0 - (S 0%nat 0%nat * y 0%nat
                                + S 0%nat 1%nat * y 1%nat))
                       + y 1%nat
                         * (w1 - (S 1%nat 0%nat * y 0%nat
                                  + S 1%nat 1%nat * y 1%nat)))).
  { unfold w0, w1, v.
    cbv [quadratic_form rsum n_x_ Nat.add].
    rewrite !HS by lia.
    rewrite (Hsym 1%nat 0%nat), (Hsym 2%nat 0%nat), (Hsym 3%nat 0%nat),
      (Hsym 4%nat 0%nat), (Hsym 2%nat 1%nat), (Hsym 3%nat 1%nat),
      (Hsym 4%nat 1%nat), (Hsym 3%nat 2%nat), (Hsym 4%nat 2%nat),
      (Hsym 4%nat 3%nat) by (unfold n_x_; lia).
    ring. }
  rewrite E, E0, E1. lra.
Qed.

Lemma lidar_R_psd (s : UKF) : positive_semidefinite 2 (lidar_R s).
Proof.
  intros y. cbv [quadratic_form rsum lidar_R mat_of_rows nth].
  pose proof (Rle_0_sqr (std_laspx_ s * y 0%nat)) as H0.
  pose proof (Rle_0_sqr (std_laspy_ s * y 1%nat)) as H1.
  unfold Rsqr in H0, H1. nra.
Qed.

Lemma UpdateLidar_after_prediction_psd
    (llt inverse : nat -> Mat -> Mat) (s : UKF) (dt : R)
    (m : MeasurementPackage) :
  positive_semidefinite n_x_ (P_ (Prediction llt s dt)) ->
  right_inverse 2 (lidar_S (Prediction llt s dt))
    (inverse 2%nat (lidar_S (Prediction llt s dt))) ->
  positive_semidefinite n_x_
    (P_ (UpdateLidar inverse (Prediction llt s dt) m)).
Proof.
  intros Hpsd Hinv. rewrite UpdateLidar_P. unfold lidar_K.
  apply (schur_complement_psd _ (lidar_R (Prediction llt s dt))).
  - apply Prediction_symmetric.
  - exact Hpsd.
  - apply lidar_R_psd.
  - intros r c _ Hc. apply lidar_Tc_after_prediction. exact Hc.
  - intros r c Hr Hc. apply lidar_S_after_prediction; assumption.
  - apply lidar_S_symmetric.
  - apply right_inverse_2_commutes. exact Hinv.
Qed.

(** The state [radar_predicted]: covariance, definiteness and laser gain. *)
Lemma radar_predicted_covariance (r c : nat) :
  (r < n_x_)%nat -> (c < n_x_)%nat ->
  P_ radar_predicted r c = P_ radar_initialised r c.
Proof.
  intros Hr Hc. unfold radar_predicted.
  assert (Hd : forall i k, (i < n_sig)%nat -> (k < n_x_)%nat ->
            x_diff (Xsig_pred_ (Prediction (fun _ _ => radar_L)
                                  radar_initialised 0))
                   (x_ (Prediction (fun _ _ => radar_L) radar_initialised 0))
                   i k
            = deviation (Xsig_aug_of (fun _ _ => radar_L) radar_initialised)
                (augmented_mean radar_initialised) i k).
  { intros i k Hi Hk. destruct (Nat.eq_dec k 3) as [->|Hk3].
    - apply Prediction_dt0_yaw_deviation;
        [exact radar_L_yaw_spread | exact Hi].
    - apply Prediction_dt0_deviation; assumption. }
  rewrite Prediction_P.
  rewrite (weighted_outer_ext _ _ _ _ r c
             (fun i Hi => Hd i r Hi Hr) (fun i Hi => Hd i c Hi Hc)).
  unfold Xsig_aug_of. rewrite sigma_points_covariance.
  rewrite radar_L_square_root by (unfold n_aug_, n_x_ in *; lia).
  unfold n_x_ in *.
  do 5 (destruct r as [|r];
        [do 5 (destruct c as [|c]; [reflexivity|]); lia|]).
  lia.
Qed.

Lemma radar_predicted_psd : positive_semidefinite n_x_ (P_ radar_predicted).
Proof.
  intros u. cbv [quadratic_form rsum n_x_ Nat.add].
  rewrite !radar_predicted_covariance by (unfold n_x_; lia).
  pose proof (Rle_0_sqr (u 0%nat)) as H0.
  pose proof (Rle_0_sqr (u 1%nat)) as H1.
  pose proof (Rle_0_sqr (u 2%nat)) as H2.
  pose proof (Rle_0_sqr (u 3%nat)) as H3.
  pose proof (Rle_0_sqr (u 4%nat)) as H4.
  unfold Rsqr in *.
  cbv [radar_initialised init_from_radar set_is_initialized_ set_P_ set_x_
       P_ mat_of_rows nth radar_observation].
  nra.
Qed.

Lemma radar_predicted_gain :
  lidar_K (fun _ _ => lidar_S_inverse) radar_predicted 0%nat 0%nat = 4 / 13.
Proof.
  unfold lidar_K, radar_predicted. cbv [mmul rsum].
  rewrite !lidar_Tc_after_prediction by lia.
  fold radar_predicted.
  rewrite !radar_predicted_covariance by (unfold n_x_; lia).
  cbv [radar_initialised init_from_radar set_is_initialized_ set_P_ set_x_
       P_ mat_of_rows nth radar_observation lidar_S_inverse diag Nat.eqb].
  lra.
Qed.

(** C7, amended. After every update of the state covariance it is
    symmetric: the prediction always produces a symmetric matrix, each of
    the two corrections keeps a symmetric matrix symmetric, and so the
    covariance is symmetric after every call on an initialised filter.
    The laser correction that follows a prediction keeps a positive
    semi-definite covariance positive semi-definite when the inversion
    returns an inverse of the innovation covariance, also through
    [ProcessMeasurement].  Nothing is promised about positive
    semi-definiteness after the prediction itself. *)
Theorem covariance_symmetric_laser_definite
    (llt inverse : nat -> Mat -> Mat) (s : UKF) (m : MeasurementPackage)
    (dt : R) :
  symmetric n_x_ (P_ (Prediction llt s dt))
  /\ (symmetric n_x_ (P_ s) ->
      symmetric n_x_ (P_ (UpdateLidar inverse s m)))
  /\ (symmetric n_x_ (P_ s) ->
      forall s', UpdateRadar inverse s m = Some s' ->
                 symmetric n_x_ (P_ s'))
  /\ (is_initialized_ s = true ->
      forall s', ProcessMeasurement llt inverse s m = Some s' ->
                 symmetric n_x_ (P_ s'))
  /\ (positive_semidefinite n_x_ (P_ (Prediction llt s dt)) ->
      right_inverse 2 (lidar_S (Prediction llt s dt))
        (inverse 2%nat (lidar_S (Prediction llt s dt))) ->
      positive_semidefinite n_x_
        (P_ (UpdateLidar inverse (Prediction llt s dt) m)))
  /\ (is_initialized_ s = true -> sensor_type_ m = LASER ->
      positive_semidefinite n_x_ (P_ (Prediction llt s (elapsed s m))) ->
      right_inverse 2 (lidar_S (Prediction llt s (elapsed s m)))
        (inverse 2%nat (lidar_S (Prediction llt s (elapsed s m)))) ->
      exists s', ProcessMeasurement llt inverse s m = Some s'
                 /\ positive_semidefinite n_x_ (P_ s')).
Proof.
  split; [apply Prediction_symmetric|].
  split; [apply UpdateLidar_symmetric|].
  split; [apply UpdateRadar_symmetric|].
  split; [|split].
  - intros Hi s' E.
    rewrite ProcessMeasurement_initialized in E by assumption.
    unfold predict_then_update in E.
    destruct (sensor_type_ m).
    + injection E as <-. rewrite P_set_time_us_.
      apply UpdateLidar_symmetric, Prediction_symmetric.
    + destruct (UpdateRadar _ _ _) as [s2|] eqn:E2; [|discriminate].
      injection E as <-. rewrite P_set_time_us_.
      exact (UpdateRadar_symmetric _ _ _ (Prediction_symmetric _ _ _) _ E2).
  - apply UpdateLidar_after_prediction_psd.
  - intros Hi Hm Hpsd Hinv.
    rewrite ProcessMeasurement_initialized by assumption.
    unfold predict_then_update. rewrite Hm.
    eexists. split; [reflexivity|].
    rewrite P_set_time_us_.
    apply UpdateLidar_after_prediction_psd; assumption.
Qed.

Lemma covariance_symmetric_laser_definite_witness :
  lidar_K (fun _ _ => lidar_S_inverse) radar_predicted 0%nat 0%nat = 4 / 13
  /\ positive_semidefinite n_x_ (P_ radar_predicted)
  /\ symmetric n_x_
       (P_ (UpdateLidar (fun _ _ => lidar_S_inverse) radar_predicted
              (laser_observation 0 (vec_of_list [6; 0]))))
  /\ positive_semidefinite n_x_
       (P_ (UpdateLidar (fun _ _ => lidar_S_inverse) radar_predicted
              (laser_observation 0 (vec_of_list [6; 0])))).
Proof.
  split; [exact radar_predicted_gain|].
  split; [exact radar_predicted_psd|].
  destruct (covariance_symmetric_laser_definite (fun _ _ => radar_L)
              (fun _ _ => lidar_S_inverse) radar_initialised
              (laser_observation 0 (vec_of_list [6; 0])) 0)
    as (Hsym & _ & _ & _ & Hpsd & _).
  destruct (covariance_symmetric_laser_definite (fun _ _ => radar_L)
              (fun _ _ => lidar_S_inverse) radar_predicted
              (laser_observation 0 (vec_of_list [6; 0])) 0)
    as (_ & Hl & _).
  split.
  - exact (Hl Hsym).
  - exact (Hpsd radar_predicted_psd radar_lidar_S_inverse).
Defined.

(** *** A prediction that loses positive semi-definiteness *)

Lemma square_root_quadratic_form (L : Mat) (u : Vec) :
  quadratic_form n_x_ (mmul n_aug_ L (transpose L)) u
  = rsum n_aug_ (fun k => Rsqr (rsum n_x_ (fun r => u r * L r k))).
Proof.
  cbv [quadratic_form mmul transpose rsum n_aug_ n_x_ Nat.add Rsqr]. ring.
Qed.

Lemma square_root_psd (L : Mat) :
  positive_semidefinite n_x_ (mmul n_aug_ L (transpose L)).
Proof.
  intros u. rewrite square_root_quadratic_form.
  apply rsum_nonneg. intros i _. apply Rle_0_sqr.
Qed.

Ltac turning_entries :=
  cbv [augmented_covariance turning_state P_ std_a_ std_yawdd_
       set_is_initialized_ set_P_ set_x_ UKF_new
       mset set_topLeftCorner mzero mmul rsum transpose
       turning_L mat_of_rows nth n_aug_ n_x_
       Nat.eqb Nat.ltb Nat.leb Nat.add andb].

Lemma turning_L_square_root :
  square_root n_aug_ turning_L (augmented_covariance turning_state).
Proof.
  intros r c Hr Hc. unfold n_aug_, n_x_ in Hr, Hc. simpl in Hr, Hc.
  do 7 (destruct r as [|r];
        [do 7 (destruct c as [|c]; [turning_entries; ring|]); lia|]).
  lia.
Qed.

Lemma turning_L_lower_triangular : lower_triangular n_aug_ turning_L.
Proof.
  intros r c Hrc Hc. unfold n_aug_, n_x_ in Hc. simpl in Hc.
  do 7 (destruct r as [|r];
        [do 7 (destruct c as [|c]; [try lia; reflexivity|]); lia|]).
  lia.
Qed.

Lemma turning_L_positive_diagonal (k : nat) :
  (k < n_aug_)%nat -> 0 < turning_L k k.
Proof.
  intros Hk. unfold n_aug_, n_x_ in Hk. simpl in Hk.
  pose proof spread_pos. pose proof PI_RGT_0.
  do 7 (destruct k as [|k];
        [cbv [turning_L mat_of_rows nth];
         try lra; apply Rdiv_lt_0_compat; assumption|]).
  lia.
Qed.

Ltac sigma_entries :=
  unfold Xsig_aug_of, sigma_points;
  change (sqrt (lambda_ + INR n_aug_)) with spread;
  cbv [for_loop n_sig n_aug_ n_x_
       augmented_mean turning_state x_ set_is_initialized_ set_P_ set_x_
       UKF_new vec_of_list turning_L mat_of_rows nth
       vset vzero mzero vadd vsub vscale col set_col set_head
       Nat.eqb Nat.ltb Nat.leb Nat.add Nat.mul Nat.sub andb].

(** The x positions of the 15 propagated sigma points after one second. *)
Lemma turning_predicted_px (i : nat) :
  (i < n_sig)%nat ->
  predicted_entry 1 (Xsig_aug_of (fun _ _ => turning_L) turning_state) 0 i
  = nth i turning_px 0.
Proof.
  intros Hi. unfold n_sig, n_aug_, n_x_ in Hi. simpl in Hi.
  pose proof spread_pos as Hp. pose proof spread_le_2 as H2.
  assert (Hpi : spread * (PI / spread) = PI) by (field; lra).
  assert (Hs : Rabs (spread * (1 / 2000)) <= 0.001).
  { rewrite Rabs_pos_eq by lra. lra. }
  assert (Hs' : Rabs (- (spread * (1 / 2000))) <= 0.001).
  { rewrite Rabs_Ropp. exact Hs. }
  assert (H0 : Rabs 0 <= 0.001) by (rewrite Rabs_R0; lra).
  unfold turning_px.
  do 15 (destruct i as [|i];
    [solve [rewrite predicted_px_straight;
            sigma_entries;
            rewrite ?Rmult_0_r, ?Rplus_0_l, ?Rplus_0_r, ?Rminus_0_r,
              ?Rminus_0_l, ?Hpi, ?cos_neg, ?cos_PI, ?cos_0;
            try lra; try assumption] |]).
  lia.
Qed.

Lemma turning_predicted_mean :
  x_ (Prediction (fun _ _ => turning_L) turning_state 1) 0%nat = - 5.
Proof.
  rewrite Prediction_x, weighted_mean_sum.
  rewrite (rsum_ext _ _ (fun i => weights_ i * nth i turning_px 0)).
  - cbv [rsum n_sig n_aug_ n_x_ Nat.add Nat.mul nth turning_px].
    weights. lra.
  - intros i Hi.
    rewrite Prediction_Xsig_pred by (unfold n_x_; lia || assumption).
    rewrite turning_predicted_px by assumption. reflexivity.
Qed.

Lemma turning_predicted_variance :
  P_ (Prediction (fun _ _ => turning_L) turning_state 1) 0%nat 0%nat
  = - 55 / 4.
Proof.
  rewrite Prediction_P, weighted_outer_sum.
  rewrite (rsum_ext _ _
             (fun i => weights_ i * ((nth i turning_px 0 + 5)
                                     * (nth i turning_px 0 + 5)))).
  - cbv [rsum n_sig n_aug_ n_x_ Nat.add Nat.mul nth turning_px]. weights.
    pose proof spread_sq as Hq.
    transitivity (- 16 + spread * spread * 3 / 4);
      [field | rewrite Hq; lra].
  - intros i Hi. rewrite x_diff_entry by lia.
    rewrite turning_predicted_mean.
    rewrite Prediction_Xsig_pred by (unfold n_x_; lia || assumption).
    rewrite turning_predicted_px by assumption.
    f_equal. lra.
Qed.

(** C7, as stated, fails on the prediction: the covariance of
    [turning_state] is symmetric and positive semi-definite, [turning_L] is
    its lower-triangular square root with a positive diagonal (the factor
    the factorisation returns), and after a prediction over one second the
    variance of the x position is -55/4, so the covariance is not positive
    semi-definite. *)
Lemma prediction_loses_positive_semidefiniteness :
  symmetric n_x_ (P_ turning_state)
  /\ positive_semidefinite n_x_ (P_ turning_state)
  /\ lower_triangular n_aug_ turning_L
  /\ (forall k, (k < n_aug_)%nat -> 0 < turning_L k k)
  /\ square_root n_aug_ turning_L (augmented_covariance turning_state)
  /\ ~ positive_semidefinite n_x_
         (P_ (Prediction (fun _ _ => turning_L) turning_state 1)).
Proof.
  split; [apply product_with_transpose_symmetric|].
  split; [apply square_root_psd|].
  split; [exact turning_L_lower_triangular|].
  split; [exact turning_L_positive_diagonal|].
  split; [exact turning_L_square_root|].
  intros H. specialize (H (vset vzero 0 1)).
  assert (E : quadratic_form n_x_
                (P_ (Prediction (fun _ _ => turning_L) turning_state 1))
                (vset vzero 0 1)
              = P_ (Prediction (fun _ _ => turning_L) turning_state 1)
                  0%nat 0%nat).
  { generalize (P_ (Prediction (fun _ _ => turning_L) turning_state 1)).
    intros A. cbv [quadratic_form rsum n_x_ vset vzero Nat.eqb]. ring. }
  rewrite E, turning_predicted_variance in H. lra.
Qed.

(** * Further properties of the code *)

(** ** Angle normalisation *)

(** X12. An angle within one and a half turns of zero, such as the
    difference of two bearings that lie between -PI and PI, is normalised
    by at most one turn: above PI one turn is subtracted, below -PI one
    turn is added, in between nothing changes; the result lies between
    -PI and PI and normalising it again changes nothing. *)
Theorem normalize_angle_within_one_turn (d : R) :
  - (3 * PI) <= d <= 3 * PI ->
  - PI <= normalize_angle d <= PI
  /\ (PI < d -> normalize_angle d = d - 2 * PI)
  /\ (d < - PI -> normalize_angle d = d + 2 * PI)
  /\ (- PI <= d <= PI -> normalize_angle d = d)
  /\ normalize_angle (normalize_angle d) = normalize_angle d.
Proof.
  intros [Hlo Hhi].
  split; [apply normalize_angle_range|].
  split; [|split; [|split]].
  - intros H. apply normalize_angle_one_turn_down. lra.
  - intros H. apply normalize_angle_one_turn_up. lra.
  - apply normalize_angle_id.
  - apply normalize_angle_id, normalize_angle_range.
Qed.

Lemma normalize_angle_within_one_turn_witness :
  normalize_angle ((PI - 1) - (- PI + 1)) = (PI - 1) - (- PI + 1) - 2 * PI.
Proof.
  pose proof PI_RGT_0 as H0. pose proof PI2_3_2 as H1.
  apply (normalize_angle_within_one_turn ((PI - 1) - (- PI + 1))); lra.
Defined.

(** X13. Two bearings on either side of the cut, PI - e and -PI + e with
    0 <= e < PI/2: their normalised difference is -2e, not 2 PI - 2e. Both
    ends of the interval are fixed points: PI stays PI and -PI stays -PI. *)
Theorem bearing_difference_across_cut (e : R) :
  0 <= e < PI / 2 ->
  normalize_angle ((PI - e) - (- PI + e)) = - (2 * e)
  /\ normalize_angle PI = PI
  /\ normalize_angle (- PI) = - PI.
Proof.
  intros [H0 H1]. pose proof PI_RGT_0.
  split; [|split].
  - rewrite normalize_angle_one_turn_down by lra. ring.
  - apply normalize_angle_id. lra.
  - apply normalize_angle_id. lra.
Qed.

Lemma bearing_difference_across_cut_witness :
  normalize_angle ((PI - 1 / 10) - (- PI + 1 / 10)) = - (2 * (1 / 10)).
Proof.
  apply (bearing_difference_across_cut (1 / 10)).
  pose proof PI2_3_2. lra.
Defined.


(** ** Calls: results, timestamps, order *)

Section DispatchMore.

Variable llt : nat -> Mat -> Mat.
Variable inverse : nat -> Mat -> Mat.

Lemma radar_Zsig_undefined (X : Mat) (n : nat) (Z : Mat) :
  for_loop_opt n (radar_measurement_model X) Z = None
  <-> exists i, (i < n)%nat /\ range_of X i = 0.
Proof.
  induction n as [|n IH]; simpl.
  - split; [discriminate | intros (i & Hi & _); lia].
  - destruct (for_loop_opt n (radar_measurement_model X) Z) as [Z'|] eqn:E.
    + split.
      * intros H. exists n. split; [lia|].
        destruct (Req_dec_T (range_of X n) 0) as [H0|H0]; [exact H0|].
        destruct (radar_measurement_model_defined X n Z' H0) as (Z2 & E2 & _).
        rewrite E2 in H. discriminate.
      * intros (i & Hi & H0).
        destruct (Nat.eq_dec i n) as [->|Hne].
        -- apply radar_measurement_model_undefined. exact H0.
        -- assert (Hn : None = None :> option Mat) by reflexivity.
           exfalso.
           assert (Hex : exists i, (i < n)%nat /\ range_of X i = 0)
             by (exists i; split; [lia | exact H0]).
           apply IH in Hex. discriminate.
    + split; [|reflexivity].
      intros _. destruct (proj1 IH eq_refl) as (i & Hi & H0).
      exists i. split; [lia | exact H0].
Qed.

Lemma UpdateRadar_undefined (s : UKF) (m : MeasurementPackage) :
  UpdateRadar inverse s m = None
  <-> exists i, (i < n_sig)%nat /\ range_of (Xsig_pred_ s) i = 0.
Proof.
  rewrite <- (radar_Zsig_undefined (Xsig_pred_ s) n_sig mzero).
  unfold UpdateRadar, radar_Zsig.
  destruct (for_loop_opt _ _ _); split; intros H;
    try discriminate; reflexivity.
Qed.

Lemma ProcessMeasurement_radar_undefined (s : UKF) (m : MeasurementPackage) :
  is_initialized_ s = true -> sensor_type_ m = RADAR ->
  (exists i, (i < n_sig)%nat
     /\ range_of (Xsig_pred_ (Prediction llt s (elapsed s m))) i = 0) ->
  ProcessMeasurement llt inverse s m = None.
Proof.
  intros Hi Hm H.
  rewrite ProcessMeasurement_initialized by exact Hi.
  unfold predict_then_update. rewrite Hm.
  apply (UpdateRadar_undefined _ m) in H. rewrite H. reflexivity.
Qed.

(** The centre sigma point of a filter whose mean has position (0, 0) and
    turn rate 0 is predicted at position (0, 0) when the elapsed time or
    the mean speed is 0. *)
Lemma Prediction_centre_at_origin (s : UKF) (dt : R) :
  x_ s 0%nat = 0 -> x_ s 1%nat = 0 -> x_ s 4%nat = 0 ->
  dt = 0 \/ x_ s 2%nat = 0 ->
  range_of (Xsig_pred_ (Prediction llt s dt)) 0 = 0.
Proof.
  intros H0 H1 H4 Hd. unfold range_of.
  rewrite !Prediction_Xsig_pred
    by (unfold n_x_, n_sig, n_aug_; simpl; lia).
  assert (Hc : forall r, (r < n_x_)%nat ->
            Xsig_aug_of llt s r 0%nat = x_ s r).
  { intros r Hr. unfold Xsig_aug_of.
    rewrite (proj1 (sigma_points_columns _ _ r)).
    apply augmented_mean_head. exact Hr. }
  assert (Hn : Xsig_aug_of llt s 5%nat 0%nat = 0) by reflexivity.
  assert (Hs : Rabs (Xsig_aug_of llt s 4%nat 0%nat) <= 0.001).
  { rewrite Hc by (unfold n_x_; lia). rewrite H4, Rabs_R0. lra. }
  destruct (predicted_position_straight dt _ 0 Hs) as [-> ->].
  rewrite Hn, !Hc by (unfold n_x_; lia). rewrite H0, H1.
  assert (E : x_ s 2%nat * dt = 0)
    by (destruct Hd as [-> | ->]; ring).
  rewrite E, !Rmult_0_r, !Rmult_0_l, !Rplus_0_r, !Rmult_0_l, Rplus_0_r.
  apply sqrt_0.
Qed.

(** X3. A radar observation with range 0 that initialises the filter puts
    the mean position at the sensor origin.  The next radar observation -
    with the same timestamp, or with any timestamp when the first range
    rate was 0 - finds the centre sigma point at the origin, the range rate
    of line 380 is a quotient by the range 0, and the call has no finite
    result, whatever the factorisation and the inversion return. *)
Theorem radar_at_origin_has_no_result (s0 : UKF) (m1 m2 : MeasurementPackage) :
  is_initialized_ s0 = false -> use_radar_ s0 = true ->
  sensor_type_ m1 = RADAR -> sensor_type_ m2 = RADAR ->
  raw_measurements_ m1 0%nat = 0 ->
  timestamp_ m2 = timestamp_ m1 \/ raw_measurements_ m1 2%nat = 0 ->
  exists s1,
    ProcessMeasurement llt inverse s0 m1 = Some s1
    /\ x_ s1 0%nat = 0 /\ x_ s1 1%nat = 0
    /\ range_of (Xsig_pred_ (Prediction llt s1 (elapsed s1 m2))) 0 = 0
    /\ ProcessMeasurement llt inverse s1 m2 = None
    /\ process_all llt inverse s0 [m1; m2] = None.
Proof.
  intros Hi Hr Hm1 Hm2 Hrho Hd.
  set (s1 := set_is_initialized_ true
               (init_from_radar m1
                  (set_x_ vzero (set_time_us_ (timestamp_ m1) s0)))).
  assert (E1 : ProcessMeasurement llt inverse s0 m1 = Some s1)
    by (apply ProcessMeasurement_first_radar; assumption).
  assert (X0 : x_ s1 0%nat = 0).
  { change (x_ s1 0%nat)
      with (raw_measurements_ m1 0%nat * cos (raw_measurements_ m1 1%nat)).
    rewrite Hrho. ring. }
  assert (X1 : x_ s1 1%nat = 0).
  { change (x_ s1 1%nat)
      with (raw_measurements_ m1 0%nat * sin (raw_measurements_ m1 1%nat)).
    rewrite Hrho. ring. }
  assert (Horigin : range_of
            (Xsig_pred_ (Prediction llt s1 (elapsed s1 m2))) 0 = 0).
  { apply Prediction_centre_at_origin;
      [exact X0 | exact X1 | reflexivity |].
    destruct Hd as [Ht | Hv].
    - left. apply elapsed_same_time. exact Ht.
    - right. exact Hv. }
  assert (E2 : ProcessMeasurement llt inverse s1 m2 = None).
  { apply ProcessMeasurement_radar_undefined;
      [reflexivity | exact Hm2 |].
    exists 0%nat. split; [unfold n_sig, n_aug_, n_x_; simpl; lia|].
    exact Horigin. }
  exists s1.
  split; [exact E1|]. split; [exact X0|]. split; [exact X1|].
  split; [exact Horigin|]. split; [exact E2|].
  cbn [process_all]. rewrite E1, E2. reflexivity.
Qed.

Lemma ProcessMeasurement_result (s s' : UKF) (m : MeasurementPackage) :
  ProcessMeasurement llt inverse s m = Some s' ->
  is_initialized_ s' = true /\ time_us_ s' = timestamp_ m.
Proof.
  destruct (is_initialized_ s) eqn:Hi.
  - rewrite ProcessMeasurement_initialized by exact Hi.
    unfold predict_then_update.
    destruct (sensor_type_ m).
    + intros E. injection E as <-. split; [exact Hi | reflexivity].
    + unfold UpdateRadar. destruct (radar_Zsig _); [|discriminate].
      intros E. injection E as <-. split; [exact Hi | reflexivity].
  - unfold ProcessMeasurement. rewrite Hi. cbn [negb].
    destruct (sensor_type_ m) eqn:Hm, (use_laser_ s) eqn:Hl,
      (use_radar_ s) eqn:Hr; cbn; intros E; injection E as <-; cbn;
      rewrite ?Hl, ?Hr; split; reflexivity.
Qed.

Lemma process_all_snoc (s : UKF) (ms : list MeasurementPackage)
    (m : MeasurementPackage) :
  process_all llt inverse s (ms ++ [m])
  = match process_all llt inverse s ms with
    | Some s1 => ProcessMeasurement llt inverse s1 m
    | None => None
    end.
Proof.
  revert s. induction ms as [|m0 ms IH]; intros s; simpl.
  - destruct (ProcessMeasurement llt inverse s m); reflexivity.
  - destruct (ProcessMeasurement llt inverse s m0); [apply IH | reflexivity].
Qed.

(** X2. Every call that has a result leaves the filter initialised and the
    stored timestamp equal to the observation's; after a sequence of calls
    the stored timestamp is that of the last observation. *)
Theorem ProcessMeasurement_stamps (s s' : UKF) (m : MeasurementPackage)
    (ms : list MeasurementPackage) :
  (ProcessMeasurement llt inverse s m = Some s' ->
   is_initialized_ s' = true /\ time_us_ s' = timestamp_ m)
  /\ (process_all llt inverse s (ms ++ [m]) = Some s' ->
      is_initialized_ s' = true /\ time_us_ s' = timestamp_ m).
Proof.
  split.
  - apply ProcessMeasurement_result.
  - rewrite process_all_snoc.
    destruct (process_all llt inverse s ms) as [s1|]; [|discriminate].
    apply ProcessMeasurement_result.
Qed.

(** X4. An observation older than the stored timestamp is not rejected:
    the prediction runs with the negative elapsed time, and the stored
    timestamp moves back to the observation's. *)
Theorem out_of_order_observation_is_processed
    (s : UKF) (m : MeasurementPackage) :
  is_initialized_ s = true ->
  (timestamp_ m < time_us_ s)%Z ->
  elapsed s m < 0
  /\ ProcessMeasurement llt inverse s m
     = predict_then_update llt inverse s m
  /\ forall s', ProcessMeasurement llt inverse s m = Some s' ->
                (time_us_ s' < time_us_ s)%Z.
Proof.
  intros Hi Ht. split; [|split].
  - unfold elapsed.
    assert (IZR (timestamp_ m - time_us_ s) < 0) by (apply IZR_lt; lia).
    lra.
  - apply ProcessMeasurement_initialized. exact Hi.
  - intros s' E. destruct (ProcessMeasurement_result _ _ _ E) as [_ H].
    rewrite H. exact Ht.
Qed.

End DispatchMore.


Lemma predicted_linear_entries dt Xa i :
  predicted_entry dt Xa 2 i = Xa 2%nat i + Xa 5%nat i * dt
  /\ predicted_entry dt Xa 3 i
     = Xa 3%nat i + Xa 4%nat i * dt + 0.5 * Xa 6%nat i * dt * dt
  /\ predicted_entry dt Xa 4 i = Xa 4%nat i + Xa 6%nat i * dt.
Proof.
  unfold predicted_entry, predict_sigma_point.
  destruct (Rgt_dec _ _); unfold mset; rewrite Nat.eqb_refl;
    repeat split.
Qed.

(** Weighted mean and covariance of sigma-point rows combined linearly. *)
Lemma sigma_points_linear_mean (x : Vec) (L : Mat) (a b c : nat) (k1 k2 : R) :
  rsum n_sig (fun i => weights_ i *
     (sigma_points x L a i + k1 * sigma_points x L b i
      + k2 * sigma_points x L c i))
  = x a + k1 * x b + k2 * x c.
Proof.
  unfold sigma_points. set (q := sqrt _).
  cbv [rsum n_sig]. unroll. weights. field.
Qed.

Lemma sigma_points_linear_covariance
    (x : Vec) (L : Mat) (a b c d : nat) (k1 k2 : R) :
  rsum n_sig (fun i => weights_ i *
     ((deviation (sigma_points x L) x i a
       + k1 * deviation (sigma_points x L) x i b)
      * (deviation (sigma_points x L) x i c
         + k2 * deviation (sigma_points x L) x i d)))
  = mmul n_aug_ L (transpose L) a c
    + k2 * mmul n_aug_ L (transpose L) a d
    + k1 * mmul n_aug_ L (transpose L) b c
    + k1 * k2 * mmul n_aug_ L (transpose L) b d.
Proof.
  unfold deviation, sigma_points.
  pose proof spread_sq as Hq. unfold spread in Hq. revert Hq.
  set (q := sqrt _). intros Hq.
  cbv [rsum n_sig]. unroll. weights. cbv [mmul rsum transpose].
  match goal with
  | |- _ = ?rhs =>
      transitivity (q * q / 3 * rhs); [field | rewrite Hq; field]
  end.
Qed.

Lemma augmented_mean_noise (s : UKF) :
  augmented_mean s 5%nat = 0 /\ augmented_mean s 6%nat = 0.
Proof. split; reflexivity. Qed.

(** ** Prediction: the linear components *)

Section PredictionMore.
Variable llt : nat -> Mat -> Mat.

Lemma Prediction_linear_mean (s : UKF) (dt : R) :
  x_ (Prediction llt s dt) 2%nat = x_ s 2%nat
  /\ x_ (Prediction llt s dt) 3%nat = x_ s 3%nat + x_ s 4%nat * dt
  /\ x_ (Prediction llt s dt) 4%nat = x_ s 4%nat.
Proof.
  rewrite Prediction_x, !weighted_mean_sum.
  split; [|split].
  - rewrite (rsum_ext _ _ (fun i => weights_ i *
        (Xsig_aug_of llt s 2%nat i + dt * Xsig_aug_of llt s 5%nat i
         + 0 * Xsig_aug_of llt s 5%nat i))).
    + unfold Xsig_aug_of. rewrite sigma_points_linear_mean.
      change (augmented_mean s 5%nat) with 0.
      change (augmented_mean s 2%nat) with (x_ s 2%nat). ring.
    + intros i Hi. rewrite Prediction_Xsig_pred by (unfold n_x_; lia || assumption).
      rewrite (proj1 (predicted_linear_entries _ _ _)). ring.
  - rewrite (rsum_ext _ _ (fun i => weights_ i *
        (Xsig_aug_of llt s 3%nat i + dt * Xsig_aug_of llt s 4%nat i
         + (0.5 * dt * dt) * Xsig_aug_of llt s 6%nat i))).
    + unfold Xsig_aug_of. rewrite sigma_points_linear_mean.
      change (augmented_mean s 6%nat) with 0.
      change (augmented_mean s 3%nat) with (x_ s 3%nat).
      change (augmented_mean s 4%nat) with (x_ s 4%nat). ring.
    + intros i Hi. rewrite Prediction_Xsig_pred by (unfold n_x_; lia || assumption).
      rewrite (proj1 (proj2 (predicted_linear_entries _ _ _))). ring.
  - rewrite (rsum_ext _ _ (fun i => weights_ i *
        (Xsig_aug_of llt s 4%nat i + dt * Xsig_aug_of llt s 6%nat i
         + 0 * Xsig_aug_of llt s 6%nat i))).
    + unfold Xsig_aug_of. rewrite sigma_points_linear_mean.
      change (augmented_mean s 6%nat) with 0.
      change (augmented_mean s 4%nat) with (x_ s 4%nat). ring.
    + intros i Hi. rewrite Prediction_Xsig_pred by (unfold n_x_; lia || assumption).
      rewrite (proj2 (proj2 (predicted_linear_entries _ _ _))). ring.
Qed.


Lemma Prediction_linear_deviation (s : UKF) (dt : R) (i : nat) :
  (i < n_sig)%nat ->
  x_diff (Xsig_pred_ (Prediction llt s dt)) (x_ (Prediction llt s dt)) i 2%nat
  = deviation (Xsig_aug_of llt s) (augmented_mean s) i 2%nat
    + dt * deviation (Xsig_aug_of llt s) (augmented_mean s) i 5%nat
  /\ x_diff (Xsig_pred_ (Prediction llt s dt)) (x_ (Prediction llt s dt))
       i 4%nat
     = deviation (Xsig_aug_of llt s) (augmented_mean s) i 4%nat
       + dt * deviation (Xsig_aug_of llt s) (augmented_mean s) i 6%nat.
Proof.
  intros Hi.
  destruct (Prediction_linear_mean s dt) as (H2 & _ & H4).
  rewrite !x_diff_entry by lia. rewrite H2, H4.
  rewrite !Prediction_Xsig_pred by (unfold n_x_; lia || assumption).
  rewrite (proj1 (predicted_linear_entries _ _ _)).
  rewrite (proj2 (proj2 (predicted_linear_entries _ _ _))).
  unfold deviation, vsub, col.
  change (augmented_mean s 5%nat) with 0.
  change (augmented_mean s 6%nat) with 0.
  change (augmented_mean s 2%nat) with (x_ s 2%nat).
  change (augmented_mean s 4%nat) with (x_ s 4%nat).
  split; ring.
Qed.

(** X6. When the factorisation returns a square root of the augmented
    covariance, the prediction adds std_a^2 dt^2 to the variance of the
    speed and std_yawdd^2 dt^2 to the variance of the turn rate, and keeps
    their covariance. *)
Theorem Prediction_process_noise (s : UKF) (dt : R) :
  square_root n_aug_ (llt n_aug_ (augmented_covariance s))
    (augmented_covariance s) ->
  P_ (Prediction llt s dt) 2%nat 2%nat
  = P_ s 2%nat 2%nat + std_a_ s * std_a_ s * (dt * dt)
  /\ P_ (Prediction llt s dt) 4%nat 4%nat
     = P_ s 4%nat 4%nat + std_yawdd_ s * std_yawdd_ s * (dt * dt)
  /\ P_ (Prediction llt s dt) 2%nat 4%nat = P_ s 2%nat 4%nat.
Proof.
  intros Hroot. rewrite Prediction_P, !weighted_outer_sum.
  assert (HC : forall r c, (r < 7)%nat -> (c < 7)%nat ->
             mmul n_aug_ (llt n_aug_ (augmented_covariance s))
               (transpose (llt n_aug_ (augmented_covariance s))) r c
             = augmented_covariance s r c).
  { intros r c Hr Hc. apply Hroot; unfold n_aug_, n_x_; lia. }
  split; [|split].
  - rewrite (rsum_ext _ _ (fun i => weights_ i *
      ((deviation (Xsig_aug_of llt s) (augmented_mean s) i 2%nat
        + dt * deviation (Xsig_aug_of llt s) (augmented_mean s) i 5%nat)
       * (deviation (Xsig_aug_of llt s) (augmented_mean s) i 2%nat
          + dt * deviation (Xsig_aug_of llt s) (augmented_mean s) i 5%nat)))).
    + unfold Xsig_aug_of. rewrite sigma_points_linear_covariance.
      rewrite !HC by lia.
      change (augmented_covariance s 2%nat 2%nat) with (P_ s 2%nat 2%nat).
      change (augmented_covariance s 2%nat 5%nat) with 0.
      change (augmented_covariance s 5%nat 2%nat) with 0.
      change (augmented_covariance s 5%nat 5%nat) with (std_a_ s * std_a_ s).
      ring.
    + intros i Hi.
      rewrite (proj1 (Prediction_linear_deviation s dt i Hi)). reflexivity.
  - rewrite (rsum_ext _ _ (fun i => weights_ i *
      ((deviation (Xsig_aug_of llt s) (augmented_mean s) i 4%nat
        + dt * deviation (Xsig_aug_of llt s) (augmented_mean s) i 6%nat)
       * (deviation (Xsig_aug_of llt s) (augmented_mean s) i 4%nat
          + dt * deviation (Xsig_aug_of llt s) (augmented_mean s) i 6%nat)))).
    + unfold Xsig_aug_of. rewrite sigma_points_linear_covariance.
      rewrite !HC by lia.
      change (augmented_covariance s 4%nat 4%nat) with (P_ s 4%nat 4%nat).
      change (augmented_covariance s 4%nat 6%nat) with 0.
      change (augmented_covariance s 6%nat 4%nat) with 0.
      change (augmented_covariance s 6%nat 6%nat)
        with (std_yawdd_ s * std_yawdd_ s).
      ring.
    + intros i Hi.
      rewrite (proj2 (Prediction_linear_deviation s dt i Hi)). reflexivity.
  - rewrite (rsum_ext _ _ (fun i => weights_ i *
      ((deviation (Xsig_aug_of llt s) (augmented_mean s) i 2%nat
        + dt * deviation (Xsig_aug_of llt s) (augmented_mean s) i 5%nat)
       * (deviation (Xsig_aug_of llt s) (augmented_mean s) i 4%nat
          + dt * deviation (Xsig_aug_of llt s) (augmented_mean s) i 6%nat)))).
    + unfold Xsig_aug_of. rewrite sigma_points_linear_covariance.
      rewrite !HC by lia.
      change (augmented_covariance s 2%nat 4%nat) with (P_ s 2%nat 4%nat).
      change (augmented_covariance s 2%nat 6%nat) with 0.
      change (augmented_covariance s 5%nat 4%nat) with 0.
      change (augmented_covariance s 5%nat 6%nat) with 0.
      ring.
    + intros i Hi.
      rewrite (proj1 (Prediction_linear_deviation s dt i Hi)).
      rewrite (proj2 (Prediction_linear_deviation s dt i Hi)). reflexivity.
Qed.

End PredictionMore.

(** X5. For every state, elapsed time and factorisation result, the
    prediction leaves the mean speed and the mean turn rate unchanged and
    advances the mean heading by turn rate times elapsed time. *)
Theorem predicted_speed_heading_turn_rate
    (llt : nat -> Mat -> Mat) (s : UKF) (dt : R) :
  x_ (Prediction llt s dt) 2%nat = x_ s 2%nat
  /\ x_ (Prediction llt s dt) 3%nat = x_ s 3%nat + x_ s 4%nat * dt
  /\ x_ (Prediction llt s dt) 4%nat = x_ s 4%nat.
Proof. apply Prediction_linear_mean. Qed.

(** ** Prediction: zero elapsed time and stale content *)

Section PredictionZero.
Variable llt : nat -> Mat -> Mat.

(** X7. With an elapsed time of 0, a square root of the augmented
    covariance and a yaw spread of the sigma points within half a turn, the
    prediction leaves the whole 5x5 covariance unchanged. *)
Theorem Prediction_dt0_keeps_covariance (s : UKF) (r c : nat) :
  square_root n_aug_ (llt n_aug_ (augmented_covariance s))
    (augmented_covariance s) ->
  (forall k, (k < n_aug_)%nat ->
     Rabs (spread * llt n_aug_ (augmented_covariance s) 3%nat k) <= PI) ->
  (r < n_x_)%nat -> (c < n_x_)%nat ->
  P_ (Prediction llt s 0) r c = P_ s r c.
Proof.
  intros Hroot Hyaw Hr Hc.
  assert (Hd : forall i k, (i < n_sig)%nat -> (k < n_x_)%nat ->
            x_diff (Xsig_pred_ (Prediction llt s 0))
                   (x_ (Prediction llt s 0)) i k
            = deviation (Xsig_aug_of llt s) (augmented_mean s) i k).
  { intros i k Hi Hk.
    destruct (Nat.eq_dec k 3) as [->|Hk3].
    - unfold x_diff, normalize_at, vset. cbn [Nat.eqb].
      replace (vsub (col (Xsig_pred_ (Prediction llt s 0)) i)
                 (x_ (Prediction llt s 0)) 3%nat)
        with (deviation (Xsig_aug_of llt s) (augmented_mean s) i 3%nat).
      + apply normalize_angle_id.
        apply sigma_points_yaw_deviation; assumption.
      + unfold deviation, vsub, col.
        rewrite Prediction_Xsig_pred, predicted_entry_dt0 by assumption.
        rewrite Prediction_dt0_mean by assumption.
        rewrite augmented_mean_head by assumption. reflexivity.
    - apply Prediction_dt0_deviation; assumption. }
  rewrite Prediction_P.
  rewrite (weighted_outer_ext _ _
             (deviation (Xsig_aug_of llt s) (augmented_mean s))
             (deviation (Xsig_aug_of llt s) (augmented_mean s)))
    by (intros i Hi; apply Hd; assumption).
  unfold Xsig_aug_of. rewrite sigma_points_covariance.
  rewrite Hroot by (unfold n_aug_, n_x_ in *; lia).
  unfold n_x_ in *.
  do 5 (destruct r as [|r];
        [do 5 (destruct c as [|c]; [reflexivity|]); lia|]).
  lia.
Qed.

Lemma x_diff_ext (X X' : Mat) (x x' : Vec) (i r : nat) :
  (forall k, (k < n_x_)%nat -> X k i = X' k i) ->
  (forall k, (k < n_x_)%nat -> x k = x' k) ->
  (r < n_x_)%nat ->
  x_diff X x i r = x_diff X' x' i r.
Proof.
  intros HX Hx Hr. unfold x_diff, normalize_at, vset, vsub, col.
  rewrite (HX 3%nat), (Hx 3%nat), (HX r), (Hx r)
    by (unfold n_x_; lia || assumption).
  reflexivity.
Qed.

(** X8. The predicted sigma points, mean and covariance do not depend on
    what the predicted sigma point matrix held before the call (in
    particular not on the content the constructor left unassigned). *)
Theorem Prediction_ignores_stale_sigma_points
    (s : UKF) (stale : Mat) (dt : R) :
  (forall r i, (r < n_x_)%nat -> (i < n_sig)%nat ->
     Xsig_pred_ (Prediction llt (set_Xsig_pred_ stale s) dt) r i
     = Xsig_pred_ (Prediction llt s dt) r i)
  /\ (forall r, (r < n_x_)%nat ->
        x_ (Prediction llt (set_Xsig_pred_ stale s) dt) r
        = x_ (Prediction llt s dt) r)
  /\ (forall r c, (r < n_x_)%nat -> (c < n_x_)%nat ->
        P_ (Prediction llt (set_Xsig_pred_ stale s) dt) r c
        = P_ (Prediction llt s dt) r c).
Proof.
  assert (HX : forall r i, (r < n_x_)%nat -> (i < n_sig)%nat ->
     Xsig_pred_ (Prediction llt (set_Xsig_pred_ stale s) dt) r i
     = Xsig_pred_ (Prediction llt s dt) r i).
  { intros r i Hr Hi. rewrite !Prediction_Xsig_pred by assumption.
    reflexivity. }
  assert (Hx : forall r, (r < n_x_)%nat ->
        x_ (Prediction llt (set_Xsig_pred_ stale s) dt) r
        = x_ (Prediction llt s dt) r).
  { intros r Hr. rewrite !Prediction_x. apply weighted_mean_ext.
    intros i Hi. apply HX; assumption. }
  split; [exact HX|]. split; [exact Hx|].
  intros r c Hr Hc. rewrite !Prediction_P.
  apply weighted_outer_ext; intros i Hi; apply x_diff_ext;
    try assumption; intros k Hk; [apply HX | apply HX]; assumption.
Qed.

End PredictionZero.


Lemma normalize_angle_zero : normalize_angle 0 = 0.
Proof. apply normalize_angle_id. pose proof PI_RGT_0. lra. Qed.

Lemma gain_product_diagonal_2 (K S : Mat) (r : nat) :
  mmul 2 (mmul 2 K S) (transpose K) r r
  = quadratic_form 2 S (fun a => K r a).
Proof. cbv [mmul rsum transpose quadratic_form]. ring. Qed.

Lemma gain_product_diagonal_3 (K S : Mat) (r : nat) :
  mmul 3 (mmul 3 K S) (transpose K) r r
  = quadratic_form 3 S (fun a => K r a).
Proof. cbv [mmul rsum transpose quadratic_form]. ring. Qed.

Lemma UpdateRadar_result (inverse : nat -> Mat -> Mat) (s s' : UKF)
    (m : MeasurementPackage) :
  UpdateRadar inverse s m = Some s' ->
  exists Zsig,
    radar_Zsig s = Some Zsig
    /\ x_ s' = vadd (x_ s)
                 (mvmul 3 (radar_K inverse s Zsig) (radar_innovation Zsig m))
    /\ P_ s' = msub (P_ s)
                 (mmul 3 (mmul 3 (radar_K inverse s Zsig) (radar_S s Zsig))
                    (transpose (radar_K inverse s Zsig))).
Proof.
  unfold UpdateRadar. destruct (radar_Zsig s) as [Zsig|]; [|discriminate].
  intros E. injection E as <-. exists Zsig. repeat split.
Qed.

(** ** Corrections *)

Section Corrections.
Variable llt : nat -> Mat -> Mat.
Variable inverse : nat -> Mat -> Mat.

(** X9. After a prediction the laser correction is the linear Kalman
    correction: the predicted measurement is the predicted position, the
    innovation covariance is the position block of the covariance plus
    diag(std_laspx^2, std_laspy^2), and the cross correlation is the first
    two columns of the covariance. *)
Theorem lidar_correction_is_linear (s : UKF) (dt : R) :
  let sp := Prediction llt s dt in
  (forall r, (r < 2)%nat -> lidar_z_pred sp r = x_ sp r)
  /\ (forall r c, (r < 2)%nat -> (c < 2)%nat ->
        lidar_S sp r c
        = P_ sp r c
          + (if Nat.eqb r c
             then (if Nat.eqb r 0 then std_laspx_ s * std_laspx_ s
                   else std_laspy_ s * std_laspy_ s)
             else 0))
  /\ (forall r c, (c < 2)%nat -> lidar_Tc sp r c = P_ sp r c).
Proof.
  intros sp. split; [|split].
  - intros r Hr. apply lidar_z_pred_after_prediction. exact Hr.
  - intros r c Hr Hc. unfold sp.
    rewrite lidar_S_after_prediction by assumption. f_equal.
    do 2 (destruct r as [|r];
          [do 2 (destruct c as [|c]; [reflexivity|]); lia|]).
    lia.
  - intros r c Hc. apply lidar_Tc_after_prediction. exact Hc.
Qed.

(** X10. No diagonal entry of the covariance grows in a correction whose
    innovation covariance is positive semi-definite, whatever the
    inversion returns. *)
Theorem correction_does_not_grow_variance
    (s : UKF) (m : MeasurementPackage) (r : nat) :
  (positive_semidefinite 2 (lidar_S s) ->
   P_ (UpdateLidar inverse s m) r r <= P_ s r r)
  /\ (forall s' Zsig,
        UpdateRadar inverse s m = Some s' ->
        radar_Zsig s = Some Zsig ->
        positive_semidefinite 3 (radar_S s Zsig) ->
        P_ s' r r <= P_ s r r).
Proof.
  split.
  - intros H. rewrite UpdateLidar_P. unfold msub.
    rewrite gain_product_diagonal_2.
    pose proof (H (fun a => lidar_K inverse s r a)). lra.
  - intros s' Zsig E EZ H.
    destruct (UpdateRadar_result _ _ _ _ E) as (Z' & EZ' & _ & HP).
    rewrite EZ in EZ'. injection EZ' as <-.
    rewrite HP. unfold msub.
    rewrite gain_product_diagonal_3.
    pose proof (H (fun a => radar_K inverse s Zsig r a)). lra.
Qed.

Lemma x_set_time_us_ (t : Z) (s : UKF) : x_ (set_time_us_ t s) = x_ s.
Proof. reflexivity. Qed.

Lemma UpdateLidar_exact (s : UKF) (m : MeasurementPackage) (r : nat) :
  (forall k, (k < 2)%nat -> raw_measurements_ m k = lidar_z_pred s k) ->
  x_ (UpdateLidar inverse s m) r = x_ s r /\ nis_lidar inverse s m = 0.
Proof.
  intros H.
  assert (H0 : lidar_innovation s m 0%nat = 0).
  { unfold lidar_innovation, normalize_at, vset, vsub. cbn [Nat.eqb].
    rewrite (H 0%nat) by lia. apply Rminus_diag. }
  assert (H1 : lidar_innovation s m 1%nat = 0).
  { unfold lidar_innovation, normalize_at, vset, vsub. cbn [Nat.eqb].
    rewrite (H 1%nat) by lia. rewrite Rminus_diag.
    apply normalize_angle_zero. }
  split.
  - cbn [UpdateLidar x_ set_P_ set_x_].
    unfold vadd, mvmul. cbv [rsum]. rewrite H0, H1. ring.
  - unfold nis_lidar, mvmul. cbv [rsum]. rewrite H0, H1. ring.
Qed.

(** X11. An observation equal to the predicted measurement leaves the mean
    where it is and has a consistency statistic of 0, in both
    corrections and whatever the inversion returns. *)
Theorem exact_observation_keeps_mean
    (s : UKF) (m : MeasurementPackage) (r : nat) :
  ((forall k, (k < 2)%nat -> raw_measurements_ m k = lidar_z_pred s k) ->
   x_ (UpdateLidar inverse s m) r = x_ s r /\ nis_lidar inverse s m = 0)
  /\ (forall s' Zsig,
        UpdateRadar inverse s m = Some s' ->
        radar_Zsig s = Some Zsig ->
        (forall k, (k < 3)%nat ->
           raw_measurements_ m k = radar_z_pred Zsig k) ->
        x_ s' r = x_ s r /\ nis_radar inverse s Zsig m = 0).
Proof.
  split.
  - apply UpdateLidar_exact.
  - intros s' Zsig E EZ H.
    destruct (UpdateRadar_result _ _ _ _ E) as (Z' & EZ' & Hx & _).
    rewrite EZ in EZ'. injection EZ' as <-.
    assert (H0 : radar_innovation Zsig m 0%nat = 0).
    { unfold radar_innovation, normalize_at, vset, vsub. cbn [Nat.eqb].
      rewrite (H 0%nat) by lia. apply Rminus_diag. }
    assert (H1 : radar_innovation Zsig m 1%nat = 0).
    { unfold radar_innovation, normalize_at, vset, vsub. cbn [Nat.eqb].
      rewrite (H 1%nat) by lia. rewrite Rminus_diag.
      apply normalize_angle_zero. }
    assert (H2 : radar_innovation Zsig m 2%nat = 0).
    { unfold radar_innovation, normalize_at, vset, vsub. cbn [Nat.eqb].
      rewrite (H 2%nat) by lia. apply Rminus_diag. }
    split.
    + rewrite Hx. unfold vadd, mvmul. cbv [rsum]. rewrite H0, H1, H2. ring.
    + unfold nis_radar, mvmul. cbv [rsum]. rewrite H0, H1, H2. ring.
Qed.

(** X16. A laser observation repeated at the same timestamp after the
    initialising laser observation leaves the mean where the
    initialisation put it, whatever the factorisation and the inversion
    return. *)
Theorem repeated_laser_observation_keeps_mean
    (x0 : Vec) (P0 Xsig0 : Mat) (t0 t : Z) (z : Vec) :
  let m := laser_observation t z in
  exists s1 s2,
    ProcessMeasurement llt inverse (UKF_new x0 P0 Xsig0 t0) m = Some s1
    /\ ProcessMeasurement llt inverse s1 m = Some s2
    /\ forall r, (r < n_x_)%nat ->
         x_ s2 r = x_ s1 r
         /\ x_ s2 r = vec_of_list [z 0%nat; z 1%nat; 0.2; 0; 0] r.
Proof.
  intros m.
  set (s1 := set_is_initialized_ true
               (init_from_laser m
                  (set_x_ vzero
                     (set_time_us_ (timestamp_ m)
                        (UKF_new x0 P0 Xsig0 t0))))).
  exists s1, (set_time_us_ t (UpdateLidar inverse (Prediction llt s1 0) m)).
  split.
  { apply ProcessMeasurement_first_laser; reflexivity. }
  split.
  { rewrite ProcessMeasurement_initialized by reflexivity.
    unfold predict_then_update.
    rewrite elapsed_same_time by reflexivity. reflexivity. }
  intros r Hr. rewrite x_set_time_us_.
  assert (Hz : forall k, (k < 2)%nat ->
            raw_measurements_ m k
            = lidar_z_pred (Prediction llt s1 0) k).
  { intros k Hk.
    rewrite lidar_z_pred_after_prediction by exact Hk.
    rewrite Prediction_dt0_mean by (unfold n_x_; lia).
    destruct k as [|[|k]]; [reflexivity | reflexivity | lia]. }
  rewrite (proj1 (UpdateLidar_exact (Prediction llt s1 0) m r Hz)).
  rewrite Prediction_dt0_mean by exact Hr.
  split; [reflexivity|].
  unfold n_x_ in Hr.
  do 5 (destruct r as [|r]; [reflexivity|]). lia.
Qed.

End Corrections.

(** ** Radar projection *)

Lemma range_of_nonneg (X : Mat) (i : nat) : 0 <= range_of X i.
Proof. unfold range_of. apply sqrt_pos. Qed.

Lemma range_of_sq (X : Mat) (i : nat) :
  range_of X i * range_of X i
  = X 0%nat i * X 0%nat i + X 1%nat i * X 1%nat i.
Proof.
  unfold range_of. apply sqrt_sqrt.
  pose proof (Rle_0_sqr (X 0%nat i)) as H0.
  pose proof (Rle_0_sqr (X 1%nat i)) as H1.
  unfold Rsqr in H0, H1. lra.
Qed.

Lemma projection_bound (px py c s : R) :
  s * s + c * c = 1 ->
  (px * c + py * s) * (px * c + py * s) <= px * px + py * py.
Proof.
  intros H.
  assert (E : px * px + py * py
              = (px * c + py * s) * (px * c + py * s)
                + (px * s - py * c) * (px * s - py * c)).
  { transitivity ((px * px + py * py) * (s * s + c * c));
      [rewrite H; ring | ring]. }
  pose proof (Rle_0_sqr (px * s - py * c)) as Hs. unfold Rsqr in Hs.
  lra.
Qed.

(** X15. Whenever the radar projection of a sigma point has a value, the
    projected range is positive, the projected range rate is at most the
    speed of the sigma point in absolute value, and no other column of the
    measurement sigma points is written. *)
Theorem radar_projection_bounds (X : Mat) (i : nat) (Z Z' : Mat) :
  radar_measurement_model X i Z = Some Z' ->
  0 < Z' 0%nat i
  /\ Rabs (Z' 2%nat i) <= Rabs (X 2%nat i)
  /\ (forall r c, c <> i -> Z' r c = Z r c).
Proof.
  intros E.
  destruct (Req_dec_T (range_of X i) 0) as [H0|H0].
  { rewrite (radar_measurement_model_undefined X i Z H0) in E. discriminate. }
  destruct (radar_measurement_model_defined X i Z H0)
    as (Z2 & E2 & Hr & _ & Hd).
  rewrite E2 in E. injection E as <-.
  pose proof (range_of_nonneg X i) as Hn.
  assert (Hpos : 0 < range_of X i) by lra.
  split; [rewrite Hr; exact Hpos|]. split.
  - rewrite Hd. unfold range_rate_numerator.
    set (px := X 0%nat i). set (py := X 1%nat i). set (v := X 2%nat i).
    set (yaw := X 3%nat i).
    replace (px * (cos yaw * v) + py * (sin yaw * v))
      with (v * (px * cos yaw + py * sin yaw)) by ring.
    unfold Rdiv. rewrite Rmult_assoc, Rabs_mult.
    rewrite <- (Rmult_1_r (Rabs v)) at 2.
    apply Rmult_le_compat_l; [apply Rabs_pos|].
    fold (Rdiv (px * cos yaw + py * sin yaw) (range_of X i)).
    apply Rabs_le.
    pose proof (projection_bound px py (cos yaw) (sin yaw)) as Hb.
    pose proof (sin2_cos2 yaw) as Hsc. unfold Rsqr in Hsc.
    specialize (Hb Hsc).
    pose proof (range_of_sq X i) as Hsq. fold px py in Hsq.
    set (t := px * cos yaw + py * sin yaw) in *.
    set (rg := range_of X i) in *.
    assert (Ht : - rg <= t <= rg) by nra.
    split.
    + apply Rmult_le_reg_r with rg; [exact Hpos|].
      unfold Rdiv. rewrite Rmult_assoc, Rinv_l by lra. lra.
    + apply Rmult_le_reg_r with rg; [exact Hpos|].
      unfold Rdiv. rewrite Rmult_assoc, Rinv_l by lra. lra.
  - intros r c Hc. unfold radar_measurement_model in E2.
    destruct (checked_div _ _); [|discriminate].
    injection E2 as <-. unfold mset.
    apply Nat.eqb_neq in Hc. rewrite Hc, !andb_false_r. reflexivity.
Qed.

(** ** Radar initialisation and projection *)

Lemma atan2_right (y x : R) : 0 < x -> atan2 y x = atan (y / x).
Proof. intros H. unfold atan2. destruct (Rlt_dec 0 x); [reflexivity|lra]. Qed.

Lemma atan2_upper_left (y x : R) :
  x < 0 -> 0 <= y -> atan2 y x = atan (y / x) + PI.
Proof.
  intros Hx Hy. unfold atan2.
  destruct (Rlt_dec 0 x); [lra|]. destruct (Rlt_dec x 0); [|lra].
  destruct (Rle_dec 0 y); [reflexivity|lra].
Qed.

Lemma atan2_lower_left (y x : R) :
  x < 0 -> y < 0 -> atan2 y x = atan (y / x) - PI.
Proof.
  intros Hx Hy. unfold atan2.
  destruct (Rlt_dec 0 x); [lra|]. destruct (Rlt_dec x 0); [|lra].
  destruct (Rle_dec 0 y); [lra|reflexivity].
Qed.

Lemma atan2_axis (y : R) :
  (0 < y -> atan2 y 0 = PI / 2) /\ (y < 0 -> atan2 y 0 = - (PI / 2)).
Proof.
  unfold atan2. destruct (Rlt_dec 0 0); [lra|].
  split; intros H.
  - destruct (Rlt_dec 0 y); [reflexivity|lra].
  - destruct (Rlt_dec 0 y); [lra|]. destruct (Rlt_dec y 0); [reflexivity|lra].
Qed.

Lemma polar_quotient (rho phi : R) :
  0 < rho -> cos phi <> 0 ->
  rho * sin phi / (rho * cos phi) = tan phi.
Proof. intros Hr Hc. unfold tan. field. split; lra. Qed.

Lemma tan_half_turn (phi : R) :
  cos phi <> 0 -> tan (phi + PI) = tan phi.
Proof.
  intros Hc. unfold tan. rewrite neg_sin, neg_cos. field. exact Hc.
Qed.

(** The bearing of the point with polar coordinates (rho, phi). *)
Lemma atan2_polar (rho phi : R) :
  0 < rho -> - PI < phi <= PI ->
  atan2 (rho * sin phi) (rho * cos phi) = phi.
Proof.
  intros Hr [Hlo Hhi]. pose proof PI_RGT_0 as Hpi.
  destruct (Rlt_dec (PI / 2) phi) as [H1|H1].
  - (* second quadrant *)
    assert (Hc : cos phi < 0) by (apply cos_lt_0; lra).
    assert (Hs : 0 <= sin phi) by (apply sin_ge_0; lra).
    rewrite atan2_upper_left by nra.
    rewrite polar_quotient by lra.
    replace phi with ((phi - PI) + PI) at 1 by ring.
    assert (Hc' : cos (phi - PI) <> 0).
    { intros E. replace phi with ((phi - PI) + PI) in Hc by ring.
      rewrite neg_cos in Hc. lra. }
    rewrite tan_half_turn by exact Hc'.
    rewrite atan_tan by lra. ring.
  - destruct (Req_dec_T phi (PI / 2)) as [E|E].
    + subst phi. rewrite cos_PI2, sin_PI2, Rmult_0_r, Rmult_1_r.
      apply atan2_axis. exact Hr.
    + destruct (Rlt_dec (- (PI / 2)) phi) as [H2|H2].
      * (* right half plane *)
        assert (Hc : 0 < cos phi) by (apply cos_gt_0; lra).
        rewrite atan2_right by nra.
        rewrite polar_quotient by lra.
        apply atan_tan. lra.
      * destruct (Req_dec_T phi (- (PI / 2))) as [E'|E'].
        -- subst phi. rewrite cos_neg, sin_neg, cos_PI2, sin_PI2, Rmult_0_r.
           apply atan2_axis. lra.
        -- (* third quadrant *)
           assert (Hc : cos phi < 0).
           { rewrite <- cos_neg. apply cos_lt_0; lra. }
           assert (Hs : sin phi < 0) by (apply sin_lt_0_var; lra).
           rewrite atan2_lower_left by nra.
           rewrite polar_quotient by lra.
           rewrite <- (tan_half_turn phi) by lra.
           rewrite atan_tan by lra. ring.
Qed.

(** X14. Round trip of the radar initialisation: for a range above 0 and
    a bearing in (-PI, PI], the radar projection of the mean that the
    initialisation builds from (rho, phi, rho_dot) is (rho, phi, rho_dot)
    again. *)
Theorem radar_initialisation_round_trip
    (m : MeasurementPackage) (s : UKF) (X Z : Mat) (i : nat) :
  let rho := raw_measurements_ m 0%nat in
  let phi := raw_measurements_ m 1%nat in
  let rho_dot := raw_measurements_ m 2%nat in
  0 < rho ->
  - PI < phi <= PI ->
  (forall r, (r < n_x_)%nat -> X r i = x_ (init_from_radar m s) r) ->
  exists Z',
    radar_measurement_model X i Z = Some Z'
    /\ Z' 0%nat i = rho
    /\ Z' 1%nat i = phi
    /\ Z' 2%nat i = rho_dot.
Proof.
  intros rho phi rho_dot Hr Hphi HX.
  assert (H0 : X 0%nat i = rho * cos phi) by (apply HX; unfold n_x_; lia).
  assert (H1 : X 1%nat i = rho * sin phi) by (apply HX; unfold n_x_; lia).
  assert (H2 : X 2%nat i = rho_dot) by (apply HX; unfold n_x_; lia).
  assert (H3 : X 3%nat i = phi) by (apply HX; unfold n_x_; lia).
  assert (Hrg : range_of X i = rho).
  { unfold range_of. rewrite H0, H1.
    replace (rho * cos phi * (rho * cos phi) + rho * sin phi * (rho * sin phi))
      with ((rho * rho) * (Rsqr (sin phi) + Rsqr (cos phi)))
      by (unfold Rsqr; ring).
    rewrite sin2_cos2, Rmult_1_r. apply sqrt_square. lra. }
  destruct (radar_measurement_model_defined X i Z) as (Z' & E & Ha & Hb & Hc).
  { rewrite Hrg. lra. }
  exists Z'. split; [exact E|]. split; [rewrite Ha; exact Hrg|]. split.
  - rewrite Hb, H0, H1. apply atan2_polar; assumption.
  - rewrite Hc, Hrg. unfold range_rate_numerator.
    rewrite H0, H1, H2, H3.
    pose proof (sin2_cos2 phi) as Hsc. unfold Rsqr in Hsc.
    replace (rho * cos phi * (cos phi * rho_dot)
             + rho * sin phi * (sin phi * rho_dot))
      with (rho * rho_dot * (sin phi * sin phi + cos phi * cos phi)) by ring.
    rewrite Hsc. field. lra.
Qed.

(** ** The theorems above at concrete inputs *)

Lemma configuration_frame_witness :
  let s := UKF_new vzero mzero mzero 0 in
  let m := laser_observation 3 (vec_of_list [1; 2]) in
  let s' :=
    set_is_initialized_ true
      (init_from_laser m (set_x_ vzero (set_time_us_ 3 s))) in
  ProcessMeasurement (fun _ _ => mzero) (fun _ _ => mzero) s m = Some s'
  /\ use_laser_ s' = use_laser_ s
  /\ std_a_ s' = std_a_ s
  /\ std_radphi_ s' = std_radphi_ s.
Proof.
  intros s m s'.
  assert (E : ProcessMeasurement (fun _ _ => mzero) (fun _ _ => mzero) s m
              = Some s')
    by (apply ProcessMeasurement_first_laser; reflexivity).
  split; [exact E|].
  destruct (configuration_frame _ _ _ _ _ E)
    as (H1 & H2 & _ & _ & _ & _ & H7 & _).
  split; [exact H1 | split; [exact H2 | exact H7]].
Defined.


Lemma radar_at_origin_has_no_result_witness :
  process_all (fun _ _ => radar_L) (fun _ _ => identity_matrix)
    (UKF_new vzero mzero mzero 0)
    [radar_observation 7 (vec_of_list [0; 1; 2]);
     radar_observation 7 (vec_of_list [4; 1; 2])] = None.
Proof.
  destruct (radar_at_origin_has_no_result (fun _ _ => radar_L)
              (fun _ _ => identity_matrix) (UKF_new vzero mzero mzero 0)
              (radar_observation 7 (vec_of_list [0; 1; 2]))
              (radar_observation 7 (vec_of_list [4; 1; 2])))
    as (s1 & _ & _ & _ & _ & _ & E);
    [reflexivity | reflexivity | reflexivity | reflexivity | reflexivity
    | left; reflexivity | exact E].
Defined.

Lemma ProcessMeasurement_stamps_witness :
  let s := UKF_new vzero mzero mzero 0 in
  let m := laser_observation 3 (vec_of_list [1; 2]) in
  let s' :=
    set_is_initialized_ true
      (init_from_laser m (set_x_ vzero (set_time_us_ 3 s))) in
  ProcessMeasurement (fun _ _ => mzero) (fun _ _ => mzero) s m = Some s'
  /\ is_initialized_ s' = true
  /\ time_us_ s' = 3%Z.
Proof.
  intros s m s'.
  assert (E : ProcessMeasurement (fun _ _ => mzero) (fun _ _ => mzero) s m
              = Some s')
    by (apply ProcessMeasurement_first_laser; reflexivity).
  split; [exact E|].
  exact (proj1 (ProcessMeasurement_stamps (fun _ _ => mzero)
                  (fun _ _ => mzero) s s' m []) E).
Defined.

Lemma out_of_order_observation_is_processed_witness :
  elapsed (set_time_us_ 10 turning_state)
    (laser_observation 3 (vec_of_list [1; 2])) < 0.
Proof.
  apply (out_of_order_observation_is_processed (fun _ _ => turning_L)
           (fun _ _ => mzero) (set_time_us_ 10 turning_state)
           (laser_observation 3 (vec_of_list [1; 2]))).
  - reflexivity.
  - simpl. lia.
Defined.

Lemma Prediction_process_noise_witness :
  P_ (Prediction (fun _ _ => radar_L) radar_initialised 2) 2%nat 2%nat
  = P_ radar_initialised 2%nat 2%nat
    + std_a_ radar_initialised * std_a_ radar_initialised * (2 * 2).
Proof.
  apply (Prediction_process_noise (fun _ _ => radar_L) radar_initialised 2).
  exact radar_L_square_root.
Defined.

Lemma Prediction_dt0_keeps_covariance_witness :
  P_ (Prediction (fun _ _ => radar_L) radar_initialised 0) 3%nat 3%nat
  = P_ radar_initialised 3%nat 3%nat.
Proof.
  apply (Prediction_dt0_keeps_covariance (fun _ _ => radar_L)
           radar_initialised 3 3).
  - exact radar_L_square_root.
  - exact radar_L_yaw_spread.
  - unfold n_x_. lia.
  - unfold n_x_. lia.
Defined.

Lemma Prediction_ignores_stale_sigma_points_witness :
  x_ (Prediction (fun _ _ => turning_L)
        (set_Xsig_pred_ (fun _ _ => 1) turning_state) 1) 0%nat
  = x_ (Prediction (fun _ _ => turning_L) turning_state 1) 0%nat.
Proof.
  apply (proj1 (proj2 (Prediction_ignores_stale_sigma_points
                         (fun _ _ => turning_L) turning_state
                         (fun _ _ => 1) 1))).
  unfold n_x_. lia.
Defined.

Lemma lidar_correction_is_linear_witness :
  lidar_z_pred (Prediction (fun _ _ => radar_L) radar_initialised 1) 0%nat
  = x_ (Prediction (fun _ _ => radar_L) radar_initialised 1) 0%nat.
Proof.
  apply (proj1 (lidar_correction_is_linear (fun _ _ => radar_L)
                  radar_initialised 1)).
  lia.
Defined.

Lemma radar_initialised_lidar_S_psd :
  positive_semidefinite 2
    (lidar_S (Prediction (fun _ _ => radar_L) radar_initialised 0)).
Proof.
  intros u. cbv [quadratic_form rsum].
  rewrite !lidar_S_after_prediction by lia.
  rewrite !Prediction_dt0_covariance
    by (try exact radar_L_square_root; unfold n_x_; lia).
  change (P_ radar_initialised 0%nat 0%nat) with 0.01.
  change (P_ radar_initialised 0%nat 1%nat) with 0.
  change (P_ radar_initialised 1%nat 0%nat) with 0.
  change (P_ radar_initialised 1%nat 1%nat) with 0.01.
  change (lidar_R (Prediction (fun _ _ => radar_L) radar_initialised 0)
            0%nat 0%nat) with (0.15 * 0.15).
  change (lidar_R (Prediction (fun _ _ => radar_L) radar_initialised 0)
            0%nat 1%nat) with 0.
  change (lidar_R (Prediction (fun _ _ => radar_L) radar_initialised 0)
            1%nat 0%nat) with 0.
  change (lidar_R (Prediction (fun _ _ => radar_L) radar_initialised 0)
            1%nat 1%nat) with (0.15 * 0.15).
  pose proof (Rle_0_sqr (u 0%nat)) as H0.
  pose proof (Rle_0_sqr (u 1%nat)) as H1.
  unfold Rsqr in H0, H1. nra.
Qed.

Lemma correction_does_not_grow_variance_witness :
  P_ (UpdateLidar (fun _ _ => lidar_S_inverse)
        (Prediction (fun _ _ => radar_L) radar_initialised 0)
        (laser_observation 0 (vec_of_list [6; 0]))) 0%nat 0%nat
  <= P_ (Prediction (fun _ _ => radar_L) radar_initialised 0) 0%nat 0%nat.
Proof.
  apply (proj1 (correction_does_not_grow_variance
                  (fun _ _ => lidar_S_inverse)
                  (Prediction (fun _ _ => radar_L) radar_initialised 0)
                  (laser_observation 0 (vec_of_list [6; 0])) 0)).
  exact radar_initialised_lidar_S_psd.
Defined.

(** The state [radar_predicted]: every predicted sigma point has a range
    above 0, so the radar projection is defined, and the gain of either
    correction is not zero there. *)
Lemma radar_Zsig_defined (X : Mat) (n : nat) (Z0 : Mat) :
  (forall i, (i < n)%nat -> range_of X i <> 0) ->
  exists Z, for_loop_opt n (radar_measurement_model X) Z0 = Some Z.
Proof.
  intros H.
  destruct (for_loop_opt n (radar_measurement_model X) Z0) as [Z|] eqn:E.
  - exists Z. reflexivity.
  - apply radar_Zsig_undefined in E. destruct E as (i & Hi & H0).
    exfalso. exact (H i Hi H0).
Qed.

Lemma radar_Zsig_range (X : Mat) (n : nat) (Z0 Z : Mat) :
  for_loop_opt n (radar_measurement_model X) Z0 = Some Z ->
  forall i, (i < n)%nat -> Z 0%nat i = range_of X i.
Proof.
  revert Z. induction n as [|n IH]; intros Z E i Hi; [lia|].
  simpl in E.
  destruct (for_loop_opt n (radar_measurement_model X) Z0) as [Z'|] eqn:E';
    [|discriminate].
  unfold radar_measurement_model in E.
  destruct (checked_div _ _) as [q|]; [|discriminate].
  injection E as <-. unfold mset. cbn [Nat.eqb andb].
  destruct (Nat.eqb i n) eqn:En.
  - apply Nat.eqb_eq in En. subst i. reflexivity.
  - apply Nat.eqb_neq in En. apply (IH Z' eq_refl). lia.
Qed.

Lemma radar_z_diff_entry (Zsig : Mat) (i r : nat) :
  r <> 1%nat -> radar_z_diff Zsig i r = Zsig r i - radar_z_pred Zsig r.
Proof.
  intros Hr. unfold radar_z_diff, normalize_at, vset.
  apply Nat.eqb_neq in Hr. rewrite Hr. reflexivity.
Qed.

Lemma radar_predicted_position (i : nat) :
  (i < n_sig)%nat ->
  Xsig_pred_ radar_predicted 0%nat i = nth i radar_predicted_px 0
  /\ Xsig_pred_ radar_predicted 1%nat i = nth i radar_predicted_py 0.
Proof.
  intros Hi. unfold radar_predicted.
  rewrite !Prediction_Xsig_pred by (try exact Hi; unfold n_x_; lia).
  rewrite !predicted_entry_dt0 by (unfold n_x_; lia).
  unfold n_sig, n_aug_, n_x_ in Hi. simpl in Hi.
  unfold Xsig_aug_of, sigma_points.
  change (sqrt (lambda_ + INR n_aug_)) with spread.
  do 15 (destruct i as [|i];
         [split; reals; rewrite ?cos_0, ?sin_0; lra|]).
  lia.
Qed.

Lemma radar_predicted_range (i : nat) :
  (i < n_sig)%nat -> range_of (Xsig_pred_ radar_predicted) i <> 0.
Proof.
  intros Hi. unfold range_of.
  destruct (radar_predicted_position i Hi) as [-> ->].
  unfold n_sig, n_aug_, n_x_ in Hi. simpl in Hi.
  pose proof spread_pos. pose proof spread_le_2.
  intros E. apply sqrt_eq_0 in E.
  - revert E.
    do 15 (destruct i as [|i];
           [cbv [nth radar_predicted_px radar_predicted_py]; nra|]).
    lia.
  - do 15 (destruct i as [|i];
           [cbv [nth radar_predicted_px radar_predicted_py]; nra|]).
    lia.
Qed.

Lemma radar_predicted_mean_px : x_ radar_predicted 0%nat = 5.
Proof.
  unfold radar_predicted.
  rewrite Prediction_dt0_mean by (unfold n_x_; lia).
  reals. rewrite cos_0. lra.
Qed.

Lemma radar_predicted_radar_gain (Zsig : Mat) :
  radar_Zsig radar_predicted = Some Zsig ->
  radar_K (fun _ _ => identity_matrix) radar_predicted Zsig 0%nat 0%nat
  = 0.01.
Proof.
  intros EZ.
  assert (Hrange : forall i, (i < n_sig)%nat ->
            Zsig 0%nat i = range_of (Xsig_pred_ radar_predicted) i)
    by (apply (radar_Zsig_range _ _ _ _ EZ)).
  assert (Hdev : forall i, (i < n_sig)%nat ->
            x_diff (Xsig_pred_ radar_predicted) (x_ radar_predicted) i 0%nat
            = nth i radar_predicted_px 0 - 5).
  { intros i Hi. rewrite x_diff_entry by lia.
    rewrite (proj1 (radar_predicted_position i Hi)), radar_predicted_mean_px.
    reflexivity. }
  assert (H1 : Zsig 0%nat 1%nat = 5 + spread * 0.1).
  { rewrite Hrange by (unfold n_sig, n_aug_, n_x_; simpl; lia).
    unfold range_of.
    destruct (radar_predicted_position 1) as [-> ->];
      [unfold n_sig, n_aug_, n_x_; simpl; lia|].
    cbv [nth radar_predicted_px radar_predicted_py].
    rewrite Rmult_0_l, Rplus_0_r. apply sqrt_square.
    pose proof spread_pos. lra. }
  assert (H8 : Zsig 0%nat 8%nat = 5 - spread * 0.1).
  { rewrite Hrange by (unfold n_sig, n_aug_, n_x_; simpl; lia).
    unfold range_of.
    destruct (radar_predicted_position 8) as [-> ->];
      [unfold n_sig, n_aug_, n_x_; simpl; lia|].
    cbv [nth radar_predicted_px radar_predicted_py].
    rewrite Rmult_0_l, Rplus_0_r. apply sqrt_square.
    pose proof spread_le_2. lra. }
  unfold radar_K, radar_Tc. cbv [mmul rsum].
  rewrite !weighted_outer_sum.
  cbv [rsum n_sig n_aug_ n_x_ Nat.add Nat.mul].
  rewrite !Hdev by (unfold n_sig, n_aug_, n_x_; simpl; lia).
  rewrite !radar_z_diff_entry by lia.
  rewrite H1, H8. weights.
  cbv [nth radar_predicted_px identity_matrix diag Nat.eqb].
  pose proof spread_sq as Hq.
  replace 0.1 with (1 / 10) by lra.
  transitivity (spread * spread / 300); [field | rewrite Hq; lra].
Qed.

Lemma radar_predicted_Zsig :
  exists Zsig, radar_Zsig radar_predicted = Some Zsig.
Proof.
  apply radar_Zsig_defined. exact radar_predicted_range.
Qed.

Lemma exact_observation_keeps_mean_witness :
  (lidar_K (fun _ _ => lidar_S_inverse) radar_predicted 0%nat 0%nat = 4 / 13
   /\ x_ (UpdateLidar (fun _ _ => lidar_S_inverse) radar_predicted
            (laser_observation 0 (lidar_z_pred radar_predicted))) 0%nat
      = x_ radar_predicted 0%nat)
  /\ exists Zsig s',
       radar_Zsig radar_predicted = Some Zsig
       /\ UpdateRadar (fun _ _ => identity_matrix) radar_predicted
            (radar_observation 0 (radar_z_pred Zsig)) = Some s'
       /\ radar_K (fun _ _ => identity_matrix) radar_predicted Zsig
            0%nat 0%nat = 0.01
       /\ x_ s' 0%nat = x_ radar_predicted 0%nat
       /\ nis_radar (fun _ _ => identity_matrix) radar_predicted Zsig
            (radar_observation 0 (radar_z_pred Zsig)) = 0.
Proof.
  split.
  - split; [exact radar_predicted_gain|].
    apply (proj1 (exact_observation_keeps_mean (fun _ _ => lidar_S_inverse)
                    radar_predicted
                    (laser_observation 0 (lidar_z_pred radar_predicted)) 0)).
    intros k _. reflexivity.
  - destruct radar_predicted_Zsig as [Zsig EZ].
    assert (E : exists s',
              UpdateRadar (fun _ _ => identity_matrix) radar_predicted
                (radar_observation 0 (radar_z_pred Zsig)) = Some s').
    { unfold UpdateRadar. rewrite EZ. eexists. reflexivity. }
    destruct E as [s' E].
    exists Zsig, s'.
    split; [exact EZ|]. split; [exact E|].
    split; [exact (radar_predicted_radar_gain Zsig EZ)|].
    apply (proj2 (exact_observation_keeps_mean (fun _ _ => identity_matrix)
                    radar_predicted
                    (radar_observation 0 (radar_z_pred Zsig)) 0)
             s' Zsig E EZ).
    intros k _. reflexivity.
Defined.

Lemma repeated_laser_observation_keeps_mean_witness :
  exists s1 s2,
    ProcessMeasurement (fun _ _ => radar_L) (fun _ _ => lidar_S_inverse)
      (UKF_new vzero mzero mzero 0) (laser_observation 4 (vec_of_list [5; 3]))
    = Some s1
    /\ ProcessMeasurement (fun _ _ => radar_L) (fun _ _ => lidar_S_inverse)
         s1 (laser_observation 4 (vec_of_list [5; 3])) = Some s2
    /\ x_ s2 0%nat = x_ s1 0%nat.
Proof.
  destruct (repeated_laser_observation_keeps_mean (fun _ _ => radar_L)
              (fun _ _ => lidar_S_inverse) vzero mzero mzero 0 4
              (vec_of_list [5; 3]))
    as (s1 & s2 & E1 & E2 & H).
  exists s1, s2. split; [exact E1|]. split; [exact E2|].
  apply H. unfold n_x_. lia.
Defined.

Lemma radar_initialisation_round_trip_witness :
  let m := radar_observation 0 (vec_of_list [5; 0; 1]) in
  let s := UKF_new vzero mzero mzero 0 in
  exists Z',
    radar_measurement_model (fun r _ => x_ (init_from_radar m s) r) 0 mzero
    = Some Z'
    /\ Z' 0%nat 0%nat = 5 /\ Z' 1%nat 0%nat = 0 /\ Z' 2%nat 0%nat = 1.
Proof.
  intros m s.
  apply (radar_initialisation_round_trip m s
           (fun r _ => x_ (init_from_radar m s) r) mzero 0).
  - change (0 < 5). lra.
  - change (- PI < 0 <= PI). pose proof PI_RGT_0. lra.
  - intros r _. reflexivity.
Defined.

Lemma radar_projection_bounds_witness :
  exists Z',
    radar_measurement_model (fun r _ => vec_of_list [3; 4; 1; 0; 0] r) 0 mzero
    = Some Z'
    /\ 0 < Z' 0%nat 0%nat
    /\ Rabs (Z' 2%nat 0%nat) <= Rabs 1.
Proof.
  assert (H : range_of (fun r _ => vec_of_list [3; 4; 1; 0; 0] r) 0 <> 0).
  { change (sqrt (3 * 3 + 4 * 4) <> 0).
    assert (0 < sqrt (3 * 3 + 4 * 4)) by (apply sqrt_lt_R0; lra). lra. }
  destruct (radar_measurement_model_defined _ 0 mzero H) as (Z' & E & _).
  exists Z'. split; [exact E|].
  destruct (radar_projection_bounds _ _ _ _ E) as (H1 & H2 & _).
  split; [exact H1 | exact H2].
Defined.
